(** * Revenue-automation portfolio: the scoring and aggregation logic

    A shallow embedding of the computations performed by
    [lead_intelligence_demo.py] (the "Analyze Lead" button and the
    results panel) and by [revenue_dashboard.py] (the mock data set and
    the metrics derived from it), followed by the properties that the
    specification states about them.

    Conventions.
    - A Python [str] is a [string]; one [ascii] stands for one character
      (code point below 256), so [String.length] is Python's [len].
    - Python integers are [Z].  An integer column of a pandas table
      holds 64-bit signed integers, and sums over it wrap around
      ([Int64.wrap64]).
    - Float arithmetic is modelled twice: in binary64 ([F64], on
      [spec_float]), and in exact arithmetic ([Cell]: a rational, an
      infinity or NaN) for the statements that are made about exact
      results. *)

From Stdlib Require Import ZArith QArith Qabs String Ascii List Bool Lia.
From Stdlib Require Import SpecFloat.
From stdpp Require Import gmap strings list fin_maps sorting.

Local Open Scope Z_scope.
Local Open Scope string_scope.

(** ** Python string operations used by the scripts *)

Module PyStr.

(** [needle in hay] on Python strings: substring containment. *)
Fixpoint contains (needle hay : string) : bool :=
  match hay with
  | EmptyString => String.prefix needle EmptyString
  | String _ rest => String.prefix needle hay || contains needle rest
  end.

(** Truth value of a string: the empty string is falsy. *)
Definition truthy (s : string) : bool :=
  match s with
  | EmptyString => false
  | String _ _ => true
  end.

(** [len(s)] as a Python integer. *)
Definition len (s : string) : Z := Z.of_nat (String.length s).

(** The text after the last ["@"] of an address: what the specification
    calls the email domain.  [None] when the address has no ["@"]. *)
Fixpoint domain_of (email : string) : option string :=
  match email with
  | EmptyString => None
  | String c rest =>
      match domain_of rest with
      | Some d => Some d
      | None => if Ascii.eqb c "@"%char then Some rest else None
      end
  end.

End PyStr.

(** ** lead_intelligence_demo.py *)

Module Lead.

(** One entry of [demo_leads]. *)
Record demo_lead := {
  name : string;
  email : string;
  company : string;
  manual_score : string;
  ai_score : Z;
  insights : string;
  time_saved : string
}.

Definition demo_leads : list demo_lead :=
  [ {| name := "John Smith"; email := "john@techcorp.com";
       company := "TechCorp"; manual_score := "Unknown"; ai_score := 85;
       insights := "High-value prospect from tech company";
       time_saved := "8 minutes" |};
    {| name := "Jane Doe"; email := "jane@gmail.com";
       company := EmptyString; manual_score := "Unknown"; ai_score := 25;
       insights := "Personal email, no company info";
       time_saved := "5 minutes" |};
    {| name := "Mike Johnson"; email := "mike@enterprise-solutions.com";
       company := "Enterprise Solutions Inc"; manual_score := "Unknown";
       ai_score := 92;
       insights := "Enterprise company, decision maker likely";
       time_saved := "12 minutes" |};
    {| name := "Sarah Wilson"; email := "sarah@startup.io";
       company := "InnovateStartup"; manual_score := "Unknown";
       ai_score := 70;
       insights := "Startup, good potential but limited budget";
       time_saved := "6 minutes" |} ].

(** The three text inputs of the "Live Scoring" page. *)
Record lead_input := {
  demo_name : string;
  demo_email : string;
  demo_company : string
}.

(** The part of [st.session_state] the page uses; an attribute that was
    never assigned is [None]. *)
Record session_state := {
  demo_score : option Z;
  demo_insights : option string
}.

Definition fresh_session : session_state :=
  {| demo_score := None; demo_insights := None |}.

(** The body of [if st.button("Analyze Lead"):], lines 127-135: the
    score and the insight text chosen for the inputs. *)
Definition analyze (l : lead_input) : Z * string :=
  if PyStr.contains "@gmail.com" (demo_email l)
     || PyStr.contains "@yahoo.com" (demo_email l)
  then (30, "Personal email domain suggests lower business intent")
  else if PyStr.truthy (demo_company l) && (5 <? PyStr.len (demo_company l))%Z
  then (85, "Professional company email and established business")
  else (50, "Moderate potential, needs further qualification").

(** Lines 137-138: the button handler stores both values. *)
Definition analyze_click (l : lead_input) (st : session_state)
  : session_state :=
  let '(score, text) := analyze l in
  {| demo_score := Some score; demo_insights := Some text |}.

Inductive priority := High | Medium | Low.

(** Lines 154-159: the banner shown for a stored score. *)
Definition priority_of (score : Z) : priority :=
  if (80 <=? score)%Z then High
  else if (60 <=? score)%Z then Medium
  else Low.

(** The results panel: nothing is shown until a score was stored
    ([hasattr(st.session_state, 'demo_score')]); the button handler
    always stores the score and the text together. *)
Definition results_panel (st : session_state)
  : option (Z * priority * string) :=
  match demo_score st, demo_insights st with
  | Some s, Some text => Some (s, priority_of s, text)
  | _, _ => None
  end.

(** What the specification calls [scoreLead]: press the button on a
    fresh session and read the panel. *)
Definition scoreLead (l : lead_input) : option (Z * priority * string) :=
  results_panel (analyze_click l fresh_session).

Definition score_of (l : lead_input) : Z := fst (analyze l).

Definition input_of (d : demo_lead) : lead_input :=
  {| demo_name := name d; demo_email := email d;
     demo_company := company d |}.

(** Leads used as examples below. *)
Definition hotmail_lead : lead_input :=
  {| demo_name := "Bob Stone"; demo_email := "bob@hotmail.com";
     demo_company := EmptyString |}.

Definition jane : lead_input :=
  {| demo_name := "Jane Doe"; demo_email := "jane@gmail.com";
     demo_company := EmptyString |}.

Definition mike : lead_input :=
  {| demo_name := "Mike Johnson";
     demo_email := "mike@enterprise-solutions.com";
     demo_company := "Enterprise Solutions Inc" |}.

Definition lookalike : lead_input :=
  {| demo_name := "Ann Lee"; demo_email := "a@gmail.com.example.org";
     demo_company := "Example Organisation" |}.

(** The domains that the specification's first rule names. *)
Definition free_mail : list string :=
  ["gmail.com"; "yahoo.com"; "hotmail.com"].

(** The two tests of the decision table, as propositions. *)
Definition personal (l : lead_input) : bool :=
  PyStr.contains "@gmail.com" (demo_email l)
  || PyStr.contains "@yahoo.com" (demo_email l).

Definition established (l : lead_input) : Prop :=
  demo_company l <> EmptyString /\ (5 < PyStr.len (demo_company l))%Z.

End Lead.

(** ** 64-bit integers of a pandas column *)

Module Int64.

Definition modulus : Z := 2 ^ 64.

(** The int64 range. *)
Definition fits (z : Z) : Prop := (- 2 ^ 63 <= z < 2 ^ 63)%Z.

(** The int64 value that a sum is stored as: the representative of [z]
    modulo [2 ^ 64] in the int64 range. *)
Definition wrap64 (z : Z) : Z := ((z + 2 ^ 63) mod modulus - 2 ^ 63)%Z.

End Int64.

(** ** Binary64 floats *)

Module F64.

Definition prec : Z := 53.
Definition emax : Z := 1024.

(** Conversion of an integer, rounding to nearest even. *)
Definition of_Z (z : Z) : spec_float := binary_normalize prec emax z 0 false.

Definition div : spec_float -> spec_float -> spec_float := SFdiv prec emax.
Definition sub : spec_float -> spec_float -> spec_float := SFsub prec emax.
Definition mul : spec_float -> spec_float -> spec_float := SFmul prec emax.

(** The number a finite float stands for. *)
Definition to_Q (f : spec_float) : option Q :=
  match f with
  | S754_zero _ => Some 0%Q
  | S754_finite s m e =>
      let magnitude :=
        if (0 <=? e)%Z then inject_Z (Z.pos m * 2 ^ e)
        else (inject_Z (Z.pos m) / inject_Z (2 ^ (- e)))%Q in
      Some (if s then (- magnitude)%Q else magnitude)
  | S754_infinity _ | S754_nan => None
  end.

End F64.

(** ** Float cells in exact arithmetic *)

Module Cell.

(** A float64 cell with rounding left out: NaN, an infinity, or a finite
    value kept as an exact rational.  Every zero that occurs below comes
    from an integer column, so zero is the positive zero. *)
Inductive cell := NaN | PInf | NInf | Fin (q : Q).

Definition is_zero (q : Q) : bool := Qeq_bool q 0.
Definition is_neg (q : Q) : bool := negb (Qle_bool 0 q).

Definition neg (c : cell) : cell :=
  match c with
  | NaN => NaN
  | PInf => NInf
  | NInf => PInf
  | Fin q => Fin (- q)
  end.

(** [a / b] with numpy's rules for division by zero and infinities. *)
Definition div (a b : cell) : cell :=
  match a, b with
  | NaN, _ | _, NaN => NaN
  | Fin x, Fin y =>
      if is_zero y then
        if is_zero x then NaN else if is_neg x then NInf else PInf
      else Fin (x / y)
  | Fin _, _ => Fin 0
  | PInf, Fin y => if is_neg y then NInf else PInf
  | NInf, Fin y => if is_neg y then PInf else NInf
  | _, _ => NaN
  end.

(** [a - b]. *)
Definition sub (a b : cell) : cell :=
  match a, b with
  | NaN, _ | _, NaN => NaN
  | Fin x, Fin y => Fin (x - y)
  | Fin _, i => neg i
  | PInf, PInf | NInf, NInf => NaN
  | i, _ => i
  end.

(** [a * b]. *)
Definition mul (a b : cell) : cell :=
  match a, b with
  | NaN, _ | _, NaN => NaN
  | Fin x, Fin y => Fin (x * y)
  | Fin x, i | i, Fin x =>
      if is_zero x then NaN else if is_neg x then neg i else i
  | PInf, PInf | NInf, NInf => PInf
  | _, _ => NInf
  end.

Definition of_int (z : Z) : cell := Fin (inject_Z z).

End Cell.

(** ** revenue_dashboard.py *)

Module Dashboard.
Import Cell.

(** *** The mock data set, [load_mock_data] *)

(** A row of [pipeline_df]. *)
Record deal := {
  Company : string;
  Amount : Z;
  Stage : string;
  Rep : string;
  Close_Date : string
}.

(** A row of [health_df]. *)
Record health := {
  Customer : string;
  MRR : Z;
  Health_Score : Z;
  Risk_Level : string
}.

(** A row of [revenue_df]. *)
Record revenue_month := {
  Month : string;
  New_MRR : Z;
  Churn_MRR : Z;
  Net_MRR : Z
}.

(** The column dictionaries, as written in the script. *)
Module pipeline_data.
Definition Company := ["Acme Corp"; "TechFlow"; "DataViz Inc"; "CloudSys";
                       "InnovateCo"; "ScaleTech"].
Definition Amount := [25000; 45000; 15000; 35000; 60000; 20000]%Z.
Definition Stage := ["Demo"; "Proposal"; "Negotiation"; "Demo";
                     "Closed Won"; "Qualified"].
Definition Rep := ["John"; "Sarah"; "Mike"; "John"; "Sarah"; "Mike"].
Definition Close_Date := ["2024-02-15"; "2024-02-20"; "2024-02-10";
                          "2024-02-25"; "2024-01-30"; "2024-02-18"].
End pipeline_data.

Module health_data.
Definition Customer := ["Acme Corp"; "TechFlow"; "DataViz Inc";
                        "CloudSys"; "InnovateCo"].
Definition MRR := [2500; 4200; 1800; 3200; 5500]%Z.
Definition Health_Score := [85; 72; 45; 90; 88]%Z.
Definition Risk_Level := ["Low"; "Medium"; "High"; "Low"; "Low"].
End health_data.

Module revenue_data.
Definition Month := ["2023-10"; "2023-11"; "2023-12"; "2024-01";
                     "2024-02"].
Definition New_MRR := [12000; 15000; 18000; 15000; 22000]%Z.
Definition Churn_MRR := [2000; 2500; 3000; 2000; 1500]%Z.
Definition Net_MRR := [10000; 12500; 15000; 13000; 20500]%Z.
End revenue_data.

(** [pd.DataFrame(columns)]: row [i] takes entry [i] of every column
    (the columns of each table above have equal lengths). *)
Definition pipeline_df : list deal :=
  map (fun '(c, a, s, r, d) => Build_deal c a s r d)
    (combine (combine (combine (combine pipeline_data.Company
       pipeline_data.Amount) pipeline_data.Stage) pipeline_data.Rep)
       pipeline_data.Close_Date).

Definition health_df : list health :=
  map (fun '(c, m, h, r) => Build_health c m h r)
    (combine (combine (combine health_data.Customer health_data.MRR)
       health_data.Health_Score) health_data.Risk_Level).

Definition revenue_df : list revenue_month :=
  map (fun '(m, n, c, t) => Build_revenue_month m n c t)
    (combine (combine (combine revenue_data.Month revenue_data.New_MRR)
       revenue_data.Churn_MRR) revenue_data.Net_MRR).

Definition load_mock_data
  : list deal * list health * list revenue_month :=
  (pipeline_df, health_df, revenue_df).


(** *** Metrics *)

(** The errors the specification names for the aggregators. *)
Inductive error := EmptyInputError | InvalidRecordError.

(** Result of evaluating a Python expression: a value, or a raised
    exception. *)
Inductive outcome (A : Type) :=
| Returns (a : A)
| Raises (e : error).
Arguments Returns {A} a.
Arguments Raises {A} e.

(** The rows of a table whose [Amount] column is an int64 column. *)
Definition int64_column (deals : list deal) : Prop :=
  Forall (fun d => Int64.fits (Amount d)) deals.

(** [Series.sum()] of an int64 column: a running int64 total from zero,
    which wraps around on overflow. *)
Definition series_sum (xs : list Z) : Z :=
  fold_left (fun acc x => Int64.wrap64 (acc + x)) xs 0%Z.

(** The sum that [Series.mean()] takes: the entries are added as floats,
    so it does not wrap; rounding is left out. *)
Definition exact_sum (xs : list Z) : Z :=
  fold_left Z.add xs 0%Z.

(** [Series.mean()] of an integer column: the float sum over the count,
    and NaN for a column without entries. *)
Definition series_mean (xs : list Z) : cell :=
  match xs with
  | [] => NaN
  | _ :: _ => Fin (inject_Z (exact_sum xs) / inject_Z (Z.of_nat (length xs)))
  end.

(** Line 112, [pipeline_df['Amount'].sum()]. *)
Definition totalAmount (deals : list deal) : Z :=
  series_sum (map Amount deals).

(** Line 116, [pipeline_df['Amount'].mean()]; the call does not raise. *)
Definition averageAmount (deals : list deal) : outcome cell :=
  Returns (series_mean (map Amount deals)).

(** Line 137, [pipeline_df.groupby('Stage')['Amount'].sum()]: every row
    adds its amount to the int64 entry of its stage, creating the entry
    at the first row of that stage. *)
Definition add_to_group (m : gmap string Z) (d : deal) : gmap string Z :=
  <[Stage d := Int64.wrap64 (default 0 (m !! Stage d) + Amount d)]> m.

Definition groupSumByStage (deals : list deal) : gmap string Z :=
  fold_left add_to_group deals ∅.

(** The same grouping in exact arithmetic, for comparison. *)
Definition exact_add_to_group (m : gmap string Z) (d : deal)
  : gmap string Z :=
  <[Stage d := (default 0 (m !! Stage d) + Amount d)%Z]> m.

Definition exact_groups (deals : list deal) : gmap string Z :=
  fold_left exact_add_to_group deals ∅.

(** Sum of the values of a grouped result. *)
Definition sum_of_groups (m : gmap string Z) : Z :=
  map_fold (fun _ v acc => (v + acc)%Z) 0%Z m.

(** Sum of [amount] over the deals of one stage, following the
    specification's wording. *)
Fixpoint stage_amount (s : string) (deals : list deal) : Z :=
  match deals with
  | [] => 0
  | d :: rest =>
      ((if String.eqb (Stage d) s then Amount d else 0) + stage_amount s rest)%Z
  end.

(** Sum of [amount] over each deal, following the specification's
    wording. *)
Fixpoint sum_amounts (deals : list deal) : Z :=
  match deals with
  | [] => 0
  | d :: rest => (Amount d + sum_amounts rest)%Z
  end.

(** Line 124, [len(health_df[health_df['Risk_Level'] == level])]. *)
Definition countByRisk (hs : list health) (level : string) : Z :=
  Z.of_nat (length (filter (fun h => Risk_Level h = level) hs)).

(** [Series.shift(1)]: every entry moves down one row, the first row
    becomes NaN and the last entry is dropped. *)
Definition shift1 (xs : list cell) : list cell :=
  match xs with
  | [] => []
  | _ :: _ => NaN :: removelast xs
  end.

(** [Series.pct_change()]: [data / data.shift(1) - 1], row by row.  (The
    forward fill that pandas applies first changes nothing on a column
    without NaN.) *)
Definition pct_change (xs : list cell) : list cell :=
  map (fun '(x, prev) => sub (div x prev) (Fin 1)) (combine xs (shift1 xs)).

(** Every entry paired with the entry of the row before it, the first
    one with [first]. *)
Fixpoint with_prev (first : cell) (xs : list cell) : list (cell * cell) :=
  match xs with
  | [] => []
  | x :: rest => (x, first) :: with_prev x rest
  end.

(** The growth formula of the specification, in percent. *)
Definition growth_formula (cur prev : Q) : Q :=
  (cur - prev) / prev * 100.

(** The same formula evaluated in binary64, as a recomputation in
    Python would. *)
Definition formula_f64 (cur prev : Z) : spec_float :=
  F64.mul (F64.div (F64.sub (F64.of_Z cur) (F64.of_Z prev)) (F64.of_Z prev))
          (F64.of_Z 100).

(** The tolerance of the specification's comparison, 1e-9. *)
Definition tolerance : Q := 1 # 1000000000.

(** Line 197, [revenue_display['Net_MRR'].pct_change() * 100], in exact
    arithmetic on a column of finite numbers. *)
Definition growth_of (net : list Q) : list cell :=
  map (fun c => mul c (Fin 100)) (pct_change (map Fin net)).

Definition growthRate (revenue : list revenue_month) : list cell :=
  growth_of (map (fun r => inject_Z (Net_MRR r)) revenue).

(** Line 197 as the script computes it, in binary64: the int64 column is
    converted to floats, divided by its shifted copy, and the result is
    decreased by 1.0 and multiplied by 100.0, each step rounded. *)
Definition shift1_f64 (xs : list spec_float) : list spec_float :=
  match xs with
  | [] => []
  | _ :: _ => S754_nan :: removelast xs
  end.

Definition pct_change_f64 (xs : list spec_float) : list spec_float :=
  map (fun '(x, prev) => F64.sub (F64.div x prev) (F64.of_Z 1))
      (combine xs (shift1_f64 xs)).

Definition growthRate_f64 (revenue : list revenue_month)
  : list spec_float :=
  map (fun c => F64.mul c (F64.of_Z 100))
      (pct_change_f64 (map (fun r => F64.of_Z (Net_MRR r)) revenue)).

Fixpoint with_prev_f64 (first : spec_float) (xs : list spec_float)
  : list (spec_float * spec_float) :=
  match xs with
  | [] => []
  | x :: rest => (x, first) :: with_prev_f64 x rest
  end.

(** Two months in which [Net_MRR] rises from 3 to 1000000, and two in
    which it rises from 42 to 11010078. *)
Definition steep_rise : list revenue_month :=
  [ {| Month := "2024-01"; New_MRR := 3; Churn_MRR := 0; Net_MRR := 3 |};
    {| Month := "2024-02"; New_MRR := 1000000; Churn_MRR := 0;
       Net_MRR := 1000000 |} ].

Definition steep_rise_42 : list revenue_month :=
  [ {| Month := "2024-01"; New_MRR := 42; Churn_MRR := 0; Net_MRR := 42 |};
    {| Month := "2024-02"; New_MRR := 11010078; Churn_MRR := 0;
       Net_MRR := 11010078 |} ].

(** A record whose [Net_MRR] is not [New_MRR - Churn_MRR]. *)
Definition inconsistent_month : revenue_month :=
  {| Month := "2024-03"; New_MRR := 100; Churn_MRR := 10; Net_MRR := 500 |}.

(** Deals of one stage whose amounts add up to more than an int64
    holds. *)
Definition huge_deals : list deal :=
  [ {| Company := "Alpha"; Amount := 2 ^ 62; Stage := "Demo"; Rep := "John";
       Close_Date := "2024-03-01" |};
    {| Company := "Beta"; Amount := 2 ^ 62; Stage := "Demo"; Rep := "Sarah";
       Close_Date := "2024-03-02" |};
    {| Company := "Gamma"; Amount := 5; Stage := "Demo"; Rep := "Mike";
       Close_Date := "2024-03-03" |} ].

(** Modelled from the spec: [classifyHealth], which no script defines
    (the scripts only carry [Risk_Level] as a column of the mock
    table).  Health score at least 75 is Low, 50 to 74 is Medium,
    below 50 is High. *)
Definition classifyHealth (healthScore : Z) : string :=
  if (75 <=? healthScore)%Z then "Low"
  else if (50 <=? healthScore)%Z then "Medium"
  else "High".

End Dashboard.

(** ** lead_intelligence_demo.py: the pages around the scoring block *)

Module LeadPage.
Import Lead.

(** A cell of a table: text or an integer. *)
Inductive value := VStr (s : string) | VInt (z : Z).

(** [pd.DataFrame(columns)] on a dictionary of lists: the constructor
    raises [ValueError] ([None]) unless all columns have the same
    length. *)
Definition DataFrame (columns : list (string * list value))
  : option (list (string * list value)) :=
  match columns with
  | [] => Some []
  | (_, first) :: rest =>
      if forallb (fun '(_, c) => Nat.eqb (length c) (length first)) rest
      then Some columns else None
  end.

(** Number of rows of a table. *)
Definition rows (df : list (string * list value)) : nat :=
  match df with
  | [] => 0%nat
  | (_, first) :: _ => length first
  end.

(** [[text] * len(leads)]. *)
Definition times (text : string) (leads : list demo_lead) : list value :=
  repeat (VStr text) (length leads).

(** Lines 87-92, the table of the manual process. *)
Definition manual_df (leads : list demo_lead) :=
  DataFrame
    [ ("Lead", map (fun lead => VStr (name lead)) leads);
      ("Status", times "Pending Research..." leads);
      ("Score", times "Unknown" leads);
      ("Time Required", times "10-15 min" leads) ].

(** Lines 105-110, the table of the automated process.  [analyzed] is
    the status text of the script, a check mark followed by "Analyzed";
    the check mark is outside the characters of [ascii], so the text is
    an argument. *)
Definition automated_df (analyzed : string) (leads : list demo_lead) :=
  DataFrame
    [ ("Lead", map (fun lead => VStr (name lead)) leads);
      ("Status", times analyzed leads);
      ("AI Score", map (fun lead => VInt (ai_score lead)) leads);
      ("Time Saved", map (fun lead => VStr (time_saved lead)) leads) ].

(** Line 145, the two slices of the score gauge. *)
Definition gauge_values (score : Z) : list Z := [score; (100 - score)%Z].

(** One run of the "Live Scoring" page, lines 113-159.  Streamlit reruns
    the script on every interaction; [clicked] tells whether this run was
    started by the "Analyze Lead" button, [l] holds the text inputs as
    they are at this run and [st] is the session state left by the
    previous run.  The result is the new session state and what the
    results column shows. *)
Definition live_scoring (clicked : bool) (l : lead_input)
    (st : session_state)
  : session_state * option (Z * priority * string) :=
  let st' := if clicked then analyze_click l st else st in
  (st', results_panel st').

(** The session state after a series of runs. *)
Definition run_all (runs : list (bool * lead_input)) (st : session_state)
  : session_state :=
  fold_left
    (fun st (r : bool * lead_input) =>
       fst (live_scoring (fst r) (snd r) st))
    runs st.

(** The inputs at the most recent run that the button started. *)
Definition last_click (runs : list (bool * lead_input))
  : option lead_input :=
  fold_left
    (fun acc (r : bool * lead_input) =>
       if fst r then Some (snd r) else acc)
    runs None.

End LeadPage.

(** ** lead_intelligence_demo.py: the ROI calculator *)

Module Roi.

(** The three [st.number_input] widgets, lines 168-170.  Each has an
    integer default and [min_value=1], so it yields an integer that the
    widget keeps at 1 or above. *)
Record inputs := {
  leads_per_month : Z;
  time_per_lead : Z;
  hourly_rate : Z
}.


(** The values of the page when it is first loaded. *)
Definition defaults : inputs :=
  {| leads_per_month := 500; time_per_lead := 12; hourly_rate := 50 |}.

(** Line 179, 30 seconds in minutes. *)
Definition automated_time : Q := 1 # 2.

(** The figures computed on lines 173-187. *)
Record figures := {
  monthly_hours : Q;
  monthly_cost : Q;
  annual_cost : Q;
  monthly_hours_auto : Q;
  monthly_cost_auto : Q;
  annual_cost_auto : Q;
  monthly_savings : Q;
  annual_savings : Q;
  time_saved_hours : Q
}.

Definition calculate (i : inputs) : figures :=
  let leads := inject_Z (leads_per_month i) in
  let rate := inject_Z (hourly_rate i) in
  let monthly_hours :=
    (inject_Z (leads_per_month i * time_per_lead i) / 60)%Q in
  let monthly_cost := (monthly_hours * rate)%Q in
  let annual_cost := (monthly_cost * 12)%Q in
  let monthly_hours_auto := ((leads * automated_time) / 60)%Q in
  let monthly_cost_auto := (monthly_hours_auto * rate)%Q in
  let annual_cost_auto := (monthly_cost_auto * 12)%Q in
  {| monthly_hours := monthly_hours;
     monthly_cost := monthly_cost;
     annual_cost := annual_cost;
     monthly_hours_auto := monthly_hours_auto;
     monthly_cost_auto := monthly_cost_auto;
     annual_cost_auto := annual_cost_auto;
     monthly_savings := (monthly_cost - monthly_cost_auto)%Q;
     annual_savings := (annual_cost - annual_cost_auto)%Q;
     time_saved_hours := (monthly_hours - monthly_hours_auto)%Q |}.

End Roi.

(** ** revenue_dashboard.py: the tabs and the sidebar *)

Module Views.
Import Dashboard.

(** Line 120, [health_df['MRR'].sum()]. *)
Definition total_mrr (hs : list health) : Z := series_sum (map MRR hs).

(** Line 124, the "High Risk Customers" metric. *)
Definition high_risk (hs : list health) : Z := countByRisk hs "High".

(** Line 174, [health_df[health_df['Risk_Level'] == 'High']]. *)
Definition high_risk_customers (hs : list health) : list health :=
  filter (fun h => Risk_Level h = "High") hs.

(** Lines 175-177: when the selection is not empty, a warning and the
    table of its [Customer], [MRR] and [Health_Score] columns. *)
Definition high_risk_alert (hs : list health)
  : option (list (string * Z * Z)) :=
  match high_risk_customers hs with
  | [] => None
  | h :: rest =>
      Some (map (fun h => (Customer h, MRR h, Health_Score h)) (h :: rest))
  end.

(** Line 167, [health_df['Risk_Level'].value_counts()]: the number of
    rows of every level that occurs, as a map from the level (the order
    of the resulting index is not modelled). *)
Definition add_count (m : gmap string Z) (h : health) : gmap string Z :=
  <[Risk_Level h := (default 0 (m !! Risk_Level h) + 1)%Z]> m.

Definition risk_counts (hs : list health) : gmap string Z :=
  fold_left add_count hs ∅.

(** Ordering by [Amount], largest first, that keeps rows of equal amount
    in their original order. *)
Fixpoint insert_desc (d : deal) (sorted : list deal) : list deal :=
  match sorted with
  | [] => [d]
  | e :: rest =>
      if (Amount d <? Amount e)%Z then e :: insert_desc d rest
      else d :: e :: rest
  end.

Definition sort_desc (deals : list deal) : list deal :=
  foldr insert_desc [] deals.

(** [df.nlargest(n, 'Amount')], with the default [keep='first']: the
    first [n] rows in descending order of [Amount]. *)
Definition nlargest (n : nat) (deals : list deal) : list deal :=
  firstn n (sort_desc deals).

(** [a] may stand before [b] in a table ordered by falling [Amount]. *)
Definition amount_ge (a b : deal) : Prop := (Amount b <= Amount a)%Z.

(** Line 146, the rows of "Top Opportunities". *)
Definition top_deals (deals : list deal) : list (string * Z * string) :=
  map (fun d => (Company d, Amount d, Stage d)) (nlargest 5 deals).

(** [Series.unique()]: the distinct values in order of first
    appearance; [seen] holds the values met so far. *)
Fixpoint unique_from (seen : gset string) (xs : list string)
  : list string :=
  match xs with
  | [] => []
  | x :: rest =>
      if decide (x ∈ seen) then unique_from seen rest
      else x :: unique_from ({[x]} ∪ seen) rest
  end.

Definition unique (xs : list string) : list string := unique_from ∅ xs.

(** Lines 244-248, the options of the sales rep filter; the default
    selection is the same list. *)
Definition rep_options (deals : list deal) : list string :=
  unique (map Rep deals).

End Views.

(** * Properties *)

(** ** Strings *)

Module PyStrFacts.
Import PyStr.

Lemma prefix_self (p : string) : String.prefix p p = true.
Proof.
  induction p as [|c p IH]; simpl; [reflexivity|].
  destruct (ascii_dec c c) as [_|Hne]; [exact IH | now destruct Hne].
Qed.

Lemma contains_here (needle hay : string) :
  String.prefix needle hay = true -> contains needle hay = true.
Proof.
  destruct hay as [|c rest]; simpl; intros H; [exact H|].
  now rewrite H.
Qed.

Lemma contains_later (needle : string) (c : ascii) (rest : string) :
  contains needle rest = true -> contains needle (String c rest) = true.
Proof.
  intros H. change (contains needle (String c rest))
    with (String.prefix needle (String c rest) || contains needle rest).
  rewrite H. apply orb_true_r.
Qed.

(** An address whose domain is [d] contains ["@" ++ d]. *)
Lemma domain_of_contains (e d : string) :
  domain_of e = Some d -> contains (String "@" d) e = true.
Proof.
  revert d. induction e as [|c e IH]; intros d; simpl domain_of.
  - discriminate.
  - destruct (domain_of e) as [d'|] eqn:Hd.
    + intros [= <-]. apply contains_later. now apply IH.
    + destruct (Ascii.eqb c "@") eqn:Hc; [|discriminate].
      intros [= <-]. apply Ascii.eqb_eq in Hc. subst c.
      apply contains_here, prefix_self.
Qed.

End PyStrFacts.

(** ** Lead scoring *)

Module LeadFacts.
Import PyStr PyStrFacts Lead.

Lemma truthy_nonempty (s : string) : truthy s = true <-> s <> EmptyString.
Proof. destruct s; simpl; split; congruence. Qed.

Lemma established_test (l : lead_input) :
  truthy (demo_company l) && (5 <? len (demo_company l))%Z = true
  <-> established l.
Proof.
  unfold established.
  rewrite andb_true_iff, truthy_nonempty, Z.ltb_lt. reflexivity.
Qed.

(** The three rows of the table, first match first. *)
Lemma analyze_personal (l : lead_input) :
  personal l = true ->
  analyze l = (30, "Personal email domain suggests lower business intent")%Z.
Proof. unfold analyze, personal. now intros ->. Qed.

Lemma analyze_established (l : lead_input) :
  personal l = false -> established l ->
  analyze l = (85, "Professional company email and established business")%Z.
Proof.
  unfold analyze, personal. intros -> He.
  apply established_test in He. now rewrite He.
Qed.

Lemma analyze_moderate (l : lead_input) :
  personal l = false -> ~ established l ->
  analyze l = (50, "Moderate potential, needs further qualification")%Z.
Proof.
  unfold analyze, personal. intros -> He.
  destruct (truthy (demo_company l) && (5 <? len (demo_company l))%Z) eqn:E;
    [|reflexivity].
  apply established_test in E. contradiction.
Qed.

Lemma scoreLead_analyze (l : lead_input) :
  scoreLead l =
    Some (fst (analyze l), priority_of (fst (analyze l)), snd (analyze l)).
Proof.
  unfold scoreLead, analyze_click. now destruct (analyze l).
Qed.

(** An address at gmail.com or yahoo.com passes the first test. *)
Lemma personal_domain (l : lead_input) :
  domain_of (demo_email l) = Some "gmail.com"
  \/ domain_of (demo_email l) = Some "yahoo.com" ->
  personal l = true.
Proof.
  unfold personal. intros [H|H]; apply domain_of_contains in H.
  - change (String "@" "gmail.com") with "@gmail.com" in H. now rewrite H.
  - change (String "@" "yahoo.com") with "@yahoo.com" in H.
    rewrite H. apply orb_true_r.
Qed.

(** Every score the button stores lies in the range of a lead score. *)
Lemma score_of_range (l : lead_input) : (0 <= score_of l <= 100)%Z.
Proof.
  unfold score_of, analyze.
  destruct (_ || _); [simpl; lia|].
  destruct (_ && _); simpl; lia.
Qed.

(** C1, as stated, fails: an address at hotmail.com, a domain of the
    free-mail set, is not scored 30. *)
Lemma free_mail_rule_fails :
  ~ (forall (l : lead_input) (d : string),
       domain_of (demo_email l) = Some d -> In d free_mail ->
       score_of l = 30%Z).
Proof.
  intros H. specialize (H hotmail_lead "hotmail.com" eq_refl).
  assert (Hin : In "hotmail.com" free_mail) by (simpl; auto).
  specialize (H Hin). vm_compute in H. discriminate.
Qed.

(** C1 (amended): the decision table is evaluated in a fixed order and
    the first matching row wins.  A lead whose email contains
    ["@gmail.com"] or ["@yahoo.com"] -- in particular one whose email
    domain is gmail.com or yahoo.com -- gets score 30 with the text
    "Personal email domain suggests lower business intent"; otherwise a
    non-empty company longer than 5 characters gives score 85;
    otherwise the score is 50. *)
Theorem scoreLead_decision_table (l : lead_input) :
  (domain_of (demo_email l) = Some "gmail.com"
   \/ domain_of (demo_email l) = Some "yahoo.com" -> personal l = true)
  /\ (personal l = true ->
      scoreLead l =
        Some (30%Z, Low,
              "Personal email domain suggests lower business intent"))
  /\ (personal l = false -> established l ->
      scoreLead l =
        Some (85%Z, High,
              "Professional company email and established business"))
  /\ (personal l = false -> ~ established l ->
      scoreLead l =
        Some (50%Z, Low,
              "Moderate potential, needs further qualification")).
Proof.
  split; [apply personal_domain|].
  rewrite scoreLead_analyze. repeat split; intros Hp.
  - now rewrite (analyze_personal l Hp).
  - intros He. now rewrite (analyze_established l Hp He).
  - intros He. now rewrite (analyze_moderate l Hp He).
Qed.

Lemma scoreLead_decision_table_witness :
  personal jane = true
  /\ scoreLead jane =
       Some (30%Z, Low,
             "Personal email domain suggests lower business intent").
Proof.
  split; [reflexivity|].
  apply (proj1 (proj2 (scoreLead_decision_table jane))). reflexivity.
Defined.


(** C3: a score in [80,100] is shown as High, one in [60,80) as Medium
    and every other score (none exceeds 100) as Low; the lead
    jane@gmail.com without company gets score 30 and Low, the lead
    mike@enterprise-solutions.com of "Enterprise Solutions Inc" gets
    score 85 and High. *)
Theorem priority_buckets :
  (forall s : Z, (s <= 100)%Z ->
     ((80 <= s <= 100)%Z -> priority_of s = High)
     /\ ((60 <= s < 80)%Z -> priority_of s = Medium)
     /\ (~ (80 <= s <= 100)%Z -> ~ (60 <= s < 80)%Z -> priority_of s = Low))
  /\ (exists text, scoreLead jane = Some (30%Z, Low, text))
  /\ (exists text, scoreLead mike = Some (85%Z, High, text)).
Proof.
  split; [|split; eexists; reflexivity].
  intros s Hs. unfold priority_of.
  destruct (Z.leb_spec 80 s), (Z.leb_spec 60 s);
    repeat split; intros; try reflexivity; lia.
Qed.

Lemma priority_buckets_witness :
  (85 <= 100)%Z /\ (80 <= 85 <= 100)%Z /\ priority_of 85 = High.
Proof.
  split; [lia|]. split; [lia|].
  apply (proj1 (proj1 priority_buckets 85%Z ltac:(lia))). lia.
Defined.

(** The address a@gmail.com.example.org has the domain
    gmail.com.example.org, which is neither gmail.com nor yahoo.com,
    and with a long company name it is still scored 30. *)
Lemma substring_not_domain :
  exists l : lead_input,
    domain_of (demo_email l) = Some "gmail.com.example.org"
    /\ domain_of (demo_email l) <> Some "gmail.com"
    /\ domain_of (demo_email l) <> Some "yahoo.com"
    /\ contains "@gmail.com" (demo_email l) = true
    /\ established l
    /\ score_of l = 30%Z.
Proof.
  exists lookalike. repeat split; try reflexivity; try discriminate.
Qed.

(** C10: the [ai_score] stored in [demo_leads] does not come from the
    live decision table.  The record of jane@gmail.com has an empty
    company and the stored score 25, while the scoring block gives 30
    for the same inputs. *)
Theorem stored_score_differs :
  exists d : demo_lead,
    In d demo_leads
    /\ email d = "jane@gmail.com" /\ company d = EmptyString
    /\ ai_score d = 25%Z
    /\ score_of (input_of d) = 30%Z
    /\ ai_score d <> score_of (input_of d).
Proof.
  exists (nth 1 demo_leads (nth 0 demo_leads
    (Build_demo_lead "-" "-" "-" "-" 0 "-" "-"))).
  repeat split; try reflexivity; try discriminate.
  simpl. auto.
Qed.

(** Stored and live scores of all four demo leads, side by side. *)
Lemma stored_and_live_scores :
  map (fun d => (ai_score d, score_of (input_of d))) demo_leads
  = [(85, 85); (25, 30); (92, 85); (70, 85)]%Z.
Proof. reflexivity. Qed.

End LeadFacts.

(** ** Dashboard metrics *)

Module Int64Facts.
Import Int64.

Lemma wrap64_fits (z : Z) : fits z -> wrap64 z = z.
Proof.
  unfold fits, wrap64, modulus. intros H.
  rewrite Z.mod_small by lia. lia.
Qed.

Lemma wrap64_range (z : Z) : fits (wrap64 z).
Proof.
  unfold fits, wrap64, modulus.
  pose proof (Z.mod_pos_bound (z + 2 ^ 63) (2 ^ 64) ltac:(lia)). lia.
Qed.

Lemma wrap64_offset (z : Z) : exists k : Z, wrap64 z = (z + k * modulus)%Z.
Proof.
  unfold wrap64, modulus. exists (- ((z + 2 ^ 63) / 2 ^ 64))%Z.
  pose proof (Z.div_mod (z + 2 ^ 63) (2 ^ 64) ltac:(lia)). lia.
Qed.

Lemma wrap64_shift (z k : Z) : wrap64 (z + k * modulus) = wrap64 z.
Proof.
  unfold wrap64.
  replace (z + k * modulus + 2 ^ 63)%Z with (z + 2 ^ 63 + k * modulus)%Z
    by lia.
  now rewrite Z_mod_plus_full.
Qed.

Lemma wrap64_add_l (a b : Z) : wrap64 (wrap64 a + b) = wrap64 (a + b).
Proof.
  destruct (wrap64_offset a) as [k ->].
  replace (a + k * modulus + b)%Z with (a + b + k * modulus)%Z by lia.
  apply wrap64_shift.
Qed.

End Int64Facts.

Module DashboardFacts.
Import Cell Int64 Int64Facts Dashboard.

(** *** Sums *)

Lemma fold_add_amounts (deals : list deal) (a : Z) :
  fold_left Z.add (map Amount deals) a = (a + sum_amounts deals)%Z.
Proof.
  revert a. induction deals as [|d rest IH]; intros a; simpl.
  - lia.
  - rewrite IH. lia.
Qed.

Lemma exact_sum_amounts (deals : list deal) :
  exact_sum (map Amount deals) = sum_amounts deals.
Proof. unfold exact_sum. now rewrite fold_add_amounts. Qed.

Lemma fold_wrap_amounts (deals : list deal) (a : Z) :
  fold_left (fun acc x => wrap64 (acc + x)) (map Amount deals) (wrap64 a)
  = wrap64 (a + sum_amounts deals).
Proof.
  revert a. induction deals as [|d rest IH]; intros a; simpl.
  - now rewrite Z.add_0_r.
  - rewrite wrap64_add_l, IH. f_equal. lia.
Qed.

(** The pipeline value is the sum of the amounts, brought into the
    int64 range. *)
Lemma totalAmount_wrap (deals : list deal) :
  totalAmount deals = wrap64 (sum_amounts deals).
Proof.
  unfold totalAmount, series_sum.
  change 0%Z with (wrap64 0) at 1. now rewrite fold_wrap_amounts.
Qed.

Lemma totalAmount_sum (deals : list deal) :
  fits (sum_amounts deals) -> totalAmount deals = sum_amounts deals.
Proof. intros H. rewrite totalAmount_wrap. now apply wrap64_fits. Qed.

Lemma mock_is_int64 : int64_column pipeline_df.
Proof. repeat constructor; unfold fits; simpl; lia. Qed.

(** *** Grouping by stage *)

Lemma sum_of_groups_insert (m : gmap string Z) (k : string) (v : Z) :
  sum_of_groups (<[k:=v]> m)
  = (v - default 0 (m !! k) + sum_of_groups m)%Z.
Proof.
  unfold sum_of_groups. destruct (m !! k) as [w|] eqn:Hk; simpl.
  - rewrite (map_fold_delete_L _ _ k w m);
      [|intros; lia|exact Hk].
    rewrite <- (insert_delete_eq m k v).
    rewrite map_fold_insert_L;
      [|intros; lia|apply lookup_delete_eq].
    lia.
  - rewrite map_fold_insert_L; [|intros; lia|exact Hk]. lia.
Qed.

Lemma exact_groups_total (deals : list deal) (m : gmap string Z) :
  sum_of_groups (fold_left exact_add_to_group deals m)
  = (sum_of_groups m + sum_amounts deals)%Z.
Proof.
  revert m. induction deals as [|d rest IH]; intros m; simpl.
  - lia.
  - rewrite IH. unfold exact_add_to_group.
    rewrite sum_of_groups_insert. lia.
Qed.

Lemma sum_of_groups_add (m : gmap string Z) (d : deal) :
  exists j : Z,
    sum_of_groups (add_to_group m d)
    = (sum_of_groups m + Amount d + j * modulus)%Z.
Proof.
  unfold add_to_group. rewrite sum_of_groups_insert.
  destruct (wrap64_offset (default 0 (m !! Stage d) + Amount d))
    as [j Hj].
  exists j. rewrite Hj. lia.
Qed.

(** The values of the grouped sums add up to the sum of the amounts,
    up to a multiple of [2 ^ 64]. *)
Lemma sum_of_groups_fold (deals : list deal) (m : gmap string Z) :
  exists k : Z,
    sum_of_groups (fold_left add_to_group deals m)
    = (sum_of_groups m + sum_amounts deals + k * modulus)%Z.
Proof.
  revert m. induction deals as [|d rest IH]; intros m; simpl.
  - exists 0%Z. lia.
  - destruct (IH (add_to_group m d)) as [k Hk].
    destruct (sum_of_groups_add m d) as [j Hj].
    exists (k + j)%Z. rewrite Hk, Hj. lia.
Qed.

Lemma groupSum_snoc (deals : list deal) (d : deal) :
  groupSumByStage (deals ++ [d])
  = add_to_group (groupSumByStage deals) d.
Proof. unfold groupSumByStage. now rewrite fold_left_app. Qed.

Lemma exact_groups_snoc (deals : list deal) (d : deal) :
  exact_groups (deals ++ [d])
  = exact_add_to_group (exact_groups deals) d.
Proof. unfold exact_groups. now rewrite fold_left_app. Qed.

Lemma stage_amount_snoc (s : string) (deals : list deal) (d : deal) :
  stage_amount s (deals ++ [d])
  = (stage_amount s deals
     + (if String.eqb (Stage d) s then Amount d else 0))%Z.
Proof.
  induction deals as [|e rest IH]; simpl.
  - lia.
  - rewrite IH. lia.
Qed.

Lemma stage_amount_absent (s : string) (deals : list deal) :
  s ∉ map Stage deals -> stage_amount s deals = 0%Z.
Proof.
  induction deals as [|e rest IH]; simpl; intros Hin; [reflexivity|].
  apply not_elem_of_cons in Hin as [Hse Hin].
  destruct (String.eqb_spec (Stage e) s) as [He|He]; [congruence|].
  rewrite IH by exact Hin. reflexivity.
Qed.

Lemma stage_snoc_elem (s : string) (deals : list deal) (d : deal) :
  s ∈ map Stage (deals ++ [d])%list <-> s ∈ map Stage deals \/ s = Stage d.
Proof.
  rewrite map_app, elem_of_app. simpl.
  now rewrite list_elem_of_singleton.
Qed.

(** In exact arithmetic the entry of a stage is the sum of its amounts,
    and a stage without rows has no entry. *)
Lemma exact_groups_lookup (deals : list deal) (s : string) :
  exact_groups deals !! s
  = if decide (s ∈ map Stage deals) then Some (stage_amount s deals)
    else None.
Proof.
  induction deals as [|d deals IH] using rev_ind.
  - unfold exact_groups. simpl fold_left. rewrite lookup_empty.
    case_decide as Hin; [|reflexivity].
    now apply not_elem_of_nil in Hin.
  - rewrite exact_groups_snoc, stage_amount_snoc.
    unfold exact_add_to_group.
    pose proof (stage_snoc_elem s deals d) as Hsnoc.
    destruct (decide (Stage d = s)) as [Hs|Hne].
    + subst s. rewrite lookup_insert_eq, String.eqb_refl, IH.
      destruct (decide (Stage d ∈ map Stage (deals ++ [d])%list))
        as [_|Hout]; [|exfalso; apply Hout, Hsnoc; now right].
      destruct (decide (Stage d ∈ map Stage deals)) as [Hin|Hin]; simpl.
      * reflexivity.
      * now rewrite (stage_amount_absent _ _ Hin).
    + rewrite lookup_insert_ne by exact Hne.
      destruct (String.eqb_spec (Stage d) s) as [He|_]; [contradiction|].
      rewrite IH, Z.add_0_r.
      destruct (decide (s ∈ map Stage deals)) as [Hin|Hin];
        destruct (decide (s ∈ map Stage (deals ++ [d])%list))
          as [Hin'|Hin']; try reflexivity.
      * exfalso. apply Hin', Hsnoc. now left.
      * exfalso. apply Hsnoc in Hin' as [?|?]; [contradiction|congruence].
Qed.

(** The int64 grouping stores every exact entry brought into the int64
    range. *)
Lemma groups_wrap_exact (deals : list deal) :
  groupSumByStage deals = wrap64 <$> exact_groups deals.
Proof.
  induction deals as [|d deals IH] using rev_ind.
  - unfold groupSumByStage, exact_groups. simpl. now rewrite fmap_empty.
  - rewrite groupSum_snoc, exact_groups_snoc, IH.
    unfold add_to_group, exact_add_to_group.
    rewrite fmap_insert, lookup_fmap. f_equal.
    destruct (exact_groups deals !! Stage d) as [v|]; simpl;
      [apply wrap64_add_l | reflexivity].
Qed.

Lemma group_lookup (deals : list deal) (s : string) :
  groupSumByStage deals !! s
  = if decide (s ∈ map Stage deals)
    then Some (wrap64 (stage_amount s deals)) else None.
Proof.
  rewrite groups_wrap_exact, lookup_fmap, exact_groups_lookup.
  now case_decide.
Qed.

Lemma groups_exact_when_fitting (deals : list deal) :
  (forall s, fits (stage_amount s deals)) ->
  groupSumByStage deals = exact_groups deals.
Proof.
  intros Hfit. apply map_eq. intros s.
  rewrite group_lookup, exact_groups_lookup.
  case_decide; [|reflexivity]. now rewrite wrap64_fits.
Qed.

(** C6, as stated, fails: three deals of 2^62, 2^62 and 5 have the
    pipeline value -9223372036854775803, which is not their sum. *)
Lemma totalAmount_overflow :
  ~ (forall deals : list deal,
       deals <> [] -> totalAmount deals = sum_amounts deals).
Proof.
  intros H. specialize (H huge_deals ltac:(discriminate)).
  vm_compute in H. discriminate.
Qed.

(** C6 (amended): for deals with int64 amounts the pipeline value is the
    sum of the [Amount] field over the deals, brought into the int64
    range modulo 2^64; it is the sum itself whenever the sum lies in the
    int64 range. *)
Theorem totalAmount_spec (deals : list deal) :
  int64_column deals ->
  totalAmount deals = wrap64 (sum_amounts deals)
  /\ (fits (sum_amounts deals) -> totalAmount deals = sum_amounts deals).
Proof.
  intros _. split; [apply totalAmount_wrap | apply totalAmount_sum].
Qed.

Lemma totalAmount_spec_witness :
  int64_column pipeline_df /\ totalAmount pipeline_df = 200000%Z.
Proof.
  split; [exact mock_is_int64|].
  apply (proj2 (totalAmount_spec pipeline_df mock_is_int64)).
  unfold fits. simpl. lia.
Defined.

(** C5, as stated, fails: for the same three deals, all in stage Demo,
    the entry of Demo is -9223372036854775803, not the sum of their
    amounts. *)
Lemma stage_sum_overflow :
  ~ (forall (deals : list deal) (s : string),
       s ∈ map Stage deals ->
       groupSumByStage deals !! s = Some (stage_amount s deals)).
Proof.
  intros H. specialize (H huge_deals "Demo" ltac:(left)).
  vm_compute in H. discriminate.
Qed.

(** C5 (amended): for deals with int64 amounts the keys of the grouped
    sums are exactly the stages that occur in the input, so a stage
    without deals has no entry; every key maps to the sum of [Amount]
    over the deals of that stage, brought into the int64 range modulo
    2^64; and the values add up to the pipeline value modulo 2^64.  When
    the sum of every stage and the sum of all amounts lie in the int64
    range, every key maps to the sum itself and the values add up to
    the pipeline value. *)
Theorem groupSumByStage_spec (deals : list deal) :
  int64_column deals ->
  dom (groupSumByStage deals) = list_to_set (map Stage deals)
  /\ (forall s : string,
        groupSumByStage deals !! s
        = if decide (s ∈ map Stage deals)
          then Some (wrap64 (stage_amount s deals)) else None)
  /\ wrap64 (sum_of_groups (groupSumByStage deals)) = totalAmount deals
  /\ ((forall s : string, fits (stage_amount s deals)) ->
      fits (sum_amounts deals) ->
      (forall s : string,
         groupSumByStage deals !! s
         = if decide (s ∈ map Stage deals)
           then Some (stage_amount s deals) else None)
      /\ sum_of_groups (groupSumByStage deals) = totalAmount deals).
Proof.
  intros _. split; [|split; [|split]].
  - apply set_eq. intros s.
    rewrite elem_of_dom, group_lookup, elem_of_list_to_set.
    case_decide as Hin; split; intros H; done.
  - apply group_lookup.
  - unfold groupSumByStage.
    destruct (sum_of_groups_fold deals ∅) as [k ->].
    unfold sum_of_groups at 1. rewrite map_fold_empty, Z.add_0_l.
    now rewrite wrap64_shift, totalAmount_wrap.
  - intros Hstage Htotal. rewrite (groups_exact_when_fitting _ Hstage).
    split; [apply exact_groups_lookup|].
    unfold exact_groups. rewrite exact_groups_total, totalAmount_sum
      by exact Htotal.
    unfold sum_of_groups. rewrite map_fold_empty. lia.
Qed.

Lemma stage_amount_bounds (s : string) (deals : list deal) :
  (forall d, d ∈ deals -> (0 <= Amount d)%Z) ->
  (0 <= stage_amount s deals <= sum_amounts deals)%Z.
Proof.
  induction deals as [|d rest IH]; intros Hpos; simpl; [lia|].
  assert (Hd : (0 <= Amount d)%Z) by (apply Hpos; left).
  assert (Hr : (0 <= stage_amount s rest <= sum_amounts rest)%Z)
    by (apply IH; intros e He; apply Hpos; now right).
  destruct (String.eqb (Stage d) s); lia.
Qed.

Lemma mock_amounts_nonneg (d : deal) :
  d ∈ pipeline_df -> (0 <= Amount d)%Z.
Proof.
  intros Hd.
  repeat (apply elem_of_cons in Hd as [->|Hd]; [simpl; lia|]).
  now apply not_elem_of_nil in Hd.
Qed.

Lemma stage_amounts_mock (s : string) : fits (stage_amount s pipeline_df).
Proof.
  pose proof (stage_amount_bounds s pipeline_df mock_amounts_nonneg) as H.
  change (sum_amounts pipeline_df) with 200000%Z in H.
  unfold fits. lia.
Qed.

Lemma groupSumByStage_spec_witness :
  int64_column pipeline_df
  /\ sum_of_groups (groupSumByStage pipeline_df) = totalAmount pipeline_df.
Proof.
  split; [exact mock_is_int64|].
  apply (proj2 (proj2 (proj2
           (groupSumByStage_spec pipeline_df mock_is_int64)))).
  - exact stage_amounts_mock.
  - unfold fits. simpl. lia.
Defined.

(** The grouped sums of the mock pipeline. *)
Lemma stage_summary_mock :
  map (fun s => groupSumByStage pipeline_df !! s)
    ["Closed Won"; "Demo"; "Negotiation"; "Proposal"; "Qualified"; "Lost"]
  = [Some 60000; Some 60000; Some 15000; Some 45000; Some 20000; None]%Z.
Proof. vm_compute. reflexivity. Qed.

(** *** The mean *)

(** C2, as stated, fails: on the empty list no error is raised. *)
Lemma averageAmount_empty_no_error :
  ~ (forall deals : list deal,
       deals = [] -> averageAmount deals = Raises EmptyInputError).
Proof. intros H. specialize (H [] eq_refl). discriminate. Qed.

(** C2 (amended): for the empty sequence of deals [averageAmount]
    raises no error and returns NaN; it never raises, and for a
    non-empty sequence it returns the sum over the count. *)
Theorem averageAmount_empty_nan :
  averageAmount [] = Returns NaN
  /\ (forall deals : list deal, exists c, averageAmount deals = Returns c)
  /\ (forall (d : deal) (rest : list deal),
        averageAmount (d :: rest)
        = Returns (Fin (inject_Z (sum_amounts (d :: rest))
                        / inject_Z (Z.of_nat (length (d :: rest)))))).
Proof.
  split; [reflexivity|]. split.
  - intros deals. now eexists.
  - intros d rest. rewrite <- exact_sum_amounts.
    unfold averageAmount. simpl. now rewrite length_map.
Qed.

(** *** The mock tables *)

(** C8, as stated, fails: nothing keeps a revenue record from carrying
    a [Net_MRR] other than [New_MRR - Churn_MRR], and the growth rate is
    computed from such a record like from any other. *)
Lemma revenue_invariant_not_enforced :
  ~ (forall r : revenue_month, Net_MRR r = (New_MRR r - Churn_MRR r)%Z)
  /\ growthRate_f64 [inconsistent_month] = [S754_nan].
Proof. split; [|reflexivity]. intros H. now specialize (H inconsistent_month). Qed.

(** C8 (amended): every revenue record the data provider returns has
    [Net_MRR = New_MRR - Churn_MRR]; the record type itself does not
    enforce it. *)
Theorem revenue_invariant :
  Forall (fun r => Net_MRR r = (New_MRR r - Churn_MRR r)%Z)
    (snd load_mock_data).
Proof. repeat constructor. Qed.

(** C7: a health score of at least 75 is Low, one from 50 to 74 is
    Medium, one below 50 is High; 45 is High and 85 is Low; and every
    row of the mock health table carries the risk level that these
    thresholds give for its score. *)
Theorem classifyHealth_thresholds :
  (forall h : Z, (75 <= h)%Z -> classifyHealth h = "Low")
  /\ (forall h : Z, (50 <= h <= 74)%Z -> classifyHealth h = "Medium")
  /\ (forall h : Z, (h < 50)%Z -> classifyHealth h = "High")
  /\ classifyHealth 45 = "High"
  /\ classifyHealth 85 = "Low"
  /\ Forall (fun r => Risk_Level r = classifyHealth (Health_Score r))
       (snd (fst load_mock_data)).
Proof.
  unfold classifyHealth. repeat split.
  - intros h Hh. destruct (Z.leb_spec 75 h); [reflexivity | lia].
  - intros h Hh. destruct (Z.leb_spec 75 h); [lia|].
    destruct (Z.leb_spec 50 h); [reflexivity | lia].
  - intros h Hh. destruct (Z.leb_spec 75 h); [lia|].
    destruct (Z.leb_spec 50 h); [lia | reflexivity].
  - repeat constructor.
Qed.

Lemma classifyHealth_thresholds_witness :
  (50 <= 72 <= 74)%Z /\ classifyHealth 72 = "Medium".
Proof.
  split; [lia|].
  apply (proj1 (proj2 classifyHealth_thresholds) 72%Z). lia.
Defined.

End DashboardFacts.

(** ** Growth rate *)

Module GrowthFacts.
Import Cell Dashboard.

Lemma combine_shift (xs : list cell) (p : cell) :
  combine xs (p :: removelast xs) = with_prev p xs.
Proof.
  revert p. induction xs as [|x rest IH]; intros p; [reflexivity|].
  destruct rest as [|y rest']; [reflexivity|].
  change (removelast (x :: y :: rest')) with (x :: removelast (y :: rest')).
  change (combine (x :: y :: rest') (p :: x :: removelast (y :: rest')))
    with ((x, p) :: combine (y :: rest') (x :: removelast (y :: rest'))).
  now rewrite IH.
Qed.

Lemma pct_change_with_prev (xs : list cell) :
  pct_change xs
  = map (fun '(x, prev) => sub (div x prev) (Fin 1)) (with_prev NaN xs).
Proof.
  unfold pct_change, shift1. destruct xs as [|x rest]; [reflexivity|].
  now rewrite combine_shift.
Qed.

Lemma with_prev_next (xs : list cell) (p a b : cell) (i : nat) :
  xs !! i = Some a -> xs !! S i = Some b ->
  with_prev p xs !! S i = Some (b, a).
Proof.
  revert p i. induction xs as [|x rest IH]; intros p i Ha Hb;
    [discriminate|].
  destruct i as [|i].
  - injection Ha as ->. destruct rest as [|y rest']; [discriminate|].
    injection Hb as ->. reflexivity.
  - simpl. now apply IH.
Qed.

Lemma growth_of_length (net : list Q) :
  length (growth_of net) = length net.
Proof.
  unfold growth_of. rewrite pct_change_with_prev, !length_map.
  generalize NaN. induction net as [|x rest IH]; intros c; simpl;
    [reflexivity | now rewrite IH].
Qed.

Lemma growth_of_first (x : Q) (rest : list Q) :
  growth_of (x :: rest) !! 0%nat = Some NaN.
Proof. unfold growth_of. rewrite pct_change_with_prev. reflexivity. Qed.

Lemma growth_cell (cur prev : Q) :
  ~ prev == 0 ->
  mul (sub (div (Fin cur) (Fin prev)) (Fin 1)) (Fin 100)
  = Fin ((cur / prev - 1) * 100).
Proof.
  intros Hp. unfold div, is_zero.
  destruct (Qeq_bool prev 0) eqn:E; [|reflexivity].
  apply Qeq_bool_iff in E. contradiction.
Qed.

Lemma growth_exact (cur prev : Q) :
  ~ prev == 0 -> (cur / prev - 1) * 100 == growth_formula cur prev.
Proof. intros Hp. unfold growth_formula. field. exact Hp. Qed.

(** The cell that line 197 computes from two consecutive values. *)
Lemma growth_of_next (net : list Q) (i : nat) (prev cur : Q) :
  net !! i = Some prev -> net !! S i = Some cur ->
  growth_of net !! S i
  = Some (mul (sub (div (Fin cur) (Fin prev)) (Fin 1)) (Fin 100)).
Proof.
  intros Hp Hc. unfold growth_of.
  rewrite pct_change_with_prev, !list_lookup_fmap.
  rewrite (with_prev_next (map Fin net) NaN (Fin prev) (Fin cur) i).
  - reflexivity.
  - now rewrite list_lookup_fmap, Hp.
  - now rewrite list_lookup_fmap, Hc.
Qed.

(** *** Binary64 *)

Lemma combine_shift_f64 (xs : list spec_float) (p : spec_float) :
  combine xs (p :: removelast xs) = with_prev_f64 p xs.
Proof.
  revert p. induction xs as [|x rest IH]; intros p; [reflexivity|].
  destruct rest as [|y rest']; [reflexivity|].
  change (removelast (x :: y :: rest')) with (x :: removelast (y :: rest')).
  change (combine (x :: y :: rest') (p :: x :: removelast (y :: rest')))
    with ((x, p) :: combine (y :: rest') (x :: removelast (y :: rest'))).
  now rewrite IH.
Qed.

Lemma pct_change_f64_with_prev (xs : list spec_float) :
  pct_change_f64 xs
  = map (fun '(x, prev) => F64.sub (F64.div x prev) (F64.of_Z 1))
        (with_prev_f64 S754_nan xs).
Proof.
  unfold pct_change_f64, shift1_f64. destruct xs as [|x rest];
    [reflexivity|].
  now rewrite combine_shift_f64.
Qed.

Lemma with_prev_f64_next (xs : list spec_float) (p a b : spec_float)
    (i : nat) :
  xs !! i = Some a -> xs !! S i = Some b ->
  with_prev_f64 p xs !! S i = Some (b, a).
Proof.
  revert p i. induction xs as [|x rest IH]; intros p i Ha Hb;
    [discriminate|].
  destruct i as [|i].
  - injection Ha as ->. destruct rest as [|y rest']; [discriminate|].
    injection Hb as ->. reflexivity.
  - simpl. now apply IH.
Qed.

Lemma with_prev_f64_length (xs : list spec_float) (p : spec_float) :
  length (with_prev_f64 p xs) = length xs.
Proof.
  revert p. induction xs as [|x rest IH]; intros p; simpl;
    [reflexivity | now rewrite IH].
Qed.

(** Dividing by NaN gives NaN, and NaN stays NaN. *)
Lemma first_row_nan (x : spec_float) :
  F64.mul (F64.sub (F64.div x S754_nan) (F64.of_Z 1)) (F64.of_Z 100)
  = S754_nan.
Proof. destruct x; reflexivity. Qed.

Lemma growthRate_f64_first (r : revenue_month) (rest : list revenue_month) :
  growthRate_f64 (r :: rest) !! 0%nat = Some S754_nan.
Proof.
  unfold growthRate_f64. rewrite pct_change_f64_with_prev.
  simpl. now rewrite first_row_nan.
Qed.

Lemma growthRate_f64_length (revenue : list revenue_month) :
  length (growthRate_f64 revenue) = length revenue.
Proof.
  unfold growthRate_f64.
  now rewrite pct_change_f64_with_prev, !length_map, with_prev_f64_length,
    length_map.
Qed.

Lemma growthRate_f64_next (revenue : list revenue_month) (i : nat)
    (prev cur : revenue_month) :
  revenue !! i = Some prev -> revenue !! S i = Some cur ->
  growthRate_f64 revenue !! S i
  = Some (F64.mul
            (F64.sub (F64.div (F64.of_Z (Net_MRR cur))
                              (F64.of_Z (Net_MRR prev)))
                     (F64.of_Z 1))
            (F64.of_Z 100)).
Proof.
  intros Hp Hc. unfold growthRate_f64.
  rewrite pct_change_f64_with_prev, !list_lookup_fmap.
  rewrite (with_prev_f64_next _ S754_nan (F64.of_Z (Net_MRR prev))
             (F64.of_Z (Net_MRR cur)) i).
  - reflexivity.
  - rewrite list_lookup_fmap, Hp. reflexivity.
  - rewrite list_lookup_fmap, Hc. reflexivity.
Qed.

(** The exact value of line 197 for two consecutive months. *)
Lemma growthRate_next (revenue : list revenue_month) (i : nat)
    (prev cur : revenue_month) :
  revenue !! i = Some prev -> revenue !! S i = Some cur ->
  Net_MRR prev <> 0%Z ->
  growthRate revenue !! S i
  = Some (Fin ((inject_Z (Net_MRR cur) / inject_Z (Net_MRR prev) - 1)
               * 100)).
Proof.
  intros Hp Hc Hz. unfold growthRate.
  rewrite (growth_of_next _ i (inject_Z (Net_MRR prev))
             (inject_Z (Net_MRR cur))).
  - rewrite growth_cell; [reflexivity|].
    intros H0. apply Hz. unfold Qeq in H0. simpl in H0. lia.
  - rewrite list_lookup_fmap, Hp. reflexivity.
  - rewrite list_lookup_fmap, Hc. reflexivity.
Qed.

(** The mock table: 25, 20, -40/3 and 750/13 percent after the first
    month. *)
Lemma growth_mock :
  match growthRate revenue_df with
  | [NaN; Fin a; Fin b; Fin c; Fin d] =>
      Qeq_bool a 25%Q && Qeq_bool b 20%Q && Qeq_bool c (-40 # 3)%Q
      && Qeq_bool d (750 # 13)%Q
  | _ => false
  end = true.
Proof. vm_compute. reflexivity. Qed.

(** The mock table in binary64: NaN, 25.0, 19.999999999999996,
    -13.33333333333333 and 57.692307692307686. *)
Lemma growth_mock_f64 :
  growthRate_f64 revenue_df
  = [ S754_nan;
      S754_finite false 7036874417766400 (-48);
      S754_finite false 5629499534213119 (-48);
      S754_finite true 7505999378950825 (-49);
      S754_finite false 8119470482038153 (-47) ].
Proof. vm_compute. reflexivity. Qed.

(** C4, as stated, fails.  When [Net_MRR] rises from 3 to 1000000 the
    computed rate is 33333233.333333332, more than 1e-9 away from the
    value of the formula; when it rises from 42 to 11010078 the computed
    rate and the formula recomputed in binary64 differ by more than
    1e-9. *)
Lemma growth_tolerance_fails :
  (exists (f : spec_float) (v : Q),
     growthRate_f64 steep_rise !! 1%nat = Some f
     /\ F64.to_Q f = Some v
     /\ ~ (Qabs (v - growth_formula 1000000 3) <= tolerance)%Q)
  /\ (exists (f : spec_float) (v w : Q),
        growthRate_f64 steep_rise_42 !! 1%nat = Some f
        /\ F64.to_Q f = Some v
        /\ F64.to_Q (formula_f64 11010078 42) = Some w
        /\ ~ (Qabs (v - w) <= tolerance)%Q).
Proof.
  split.
  - eexists. eexists. split; [vm_compute; reflexivity|].
    split; [vm_compute; reflexivity|].
    intros H. vm_compute in H. now apply H.
  - eexists. eexists. eexists. split; [vm_compute; reflexivity|].
    split; [vm_compute; reflexivity|].
    split; [vm_compute; reflexivity|].
    intros H. vm_compute in H. now apply H.
Qed.

(** C4 (amended): for a non-empty revenue sequence the first growth rate
    is NaN (a value, not an error) and there is one rate per month; the
    rate of every later month is the binary64 result of
    [(netMrr[i] / netMrr[i-1] - 1) * 100], which in exact arithmetic is
    [(netMrr[i] - netMrr[i-1]) / netMrr[i-1] * 100] whenever the previous
    [Net_MRR] is not zero.  In binary64 the two agree up to rounding
    only, not within 1e-9. *)
Theorem growthRate_formula (revenue : list revenue_month) :
  revenue <> [] ->
  growthRate_f64 revenue !! 0%nat = Some S754_nan
  /\ length (growthRate_f64 revenue) = length revenue
  /\ (forall (i : nat) (prev cur : revenue_month),
        revenue !! i = Some prev -> revenue !! S i = Some cur ->
        growthRate_f64 revenue !! S i
        = Some (F64.mul
                  (F64.sub (F64.div (F64.of_Z (Net_MRR cur))
                                    (F64.of_Z (Net_MRR prev)))
                           (F64.of_Z 1))
                  (F64.of_Z 100))
        /\ (Net_MRR prev <> 0%Z ->
            exists v : Q,
              growthRate revenue !! S i = Some (Fin v)
              /\ v == growth_formula (inject_Z (Net_MRR cur))
                                     (inject_Z (Net_MRR prev)))).
Proof.
  intros Hne. split; [|split].
  - destruct revenue as [|r rest]; [contradiction|].
    apply growthRate_f64_first.
  - apply growthRate_f64_length.
  - intros i prev cur Hp Hc. split.
    + exact (growthRate_f64_next revenue i prev cur Hp Hc).
    + intros Hz. eexists. split.
      * exact (growthRate_next revenue i prev cur Hp Hc Hz).
      * apply growth_exact. intros H0. apply Hz.
        unfold Qeq in H0. simpl in H0. lia.
Qed.

Lemma growthRate_formula_witness :
  revenue_df <> []
  /\ growthRate_f64 revenue_df !! 0%nat = Some S754_nan
  /\ growthRate_f64 revenue_df !! 1%nat
     = Some (S754_finite false 7036874417766400 (-48)).
Proof.
  assert (Hne : revenue_df <> []) by discriminate.
  destruct (growthRate_formula revenue_df Hne) as (H0 & _ & Hnext).
  split; [exact Hne|]. split; [exact H0|].
  destruct (Hnext 0%nat
              (Build_revenue_month "2023-10" 12000 2000 10000)
              (Build_revenue_month "2023-11" 15000 2500 12500)
              eq_refl eq_refl) as (Hf & _).
  rewrite Hf. vm_compute. reflexivity.
Defined.

End GrowthFacts.

(** ** More on lead scoring *)

Module LeadPageFacts.
Import PyStr PyStrFacts Lead LeadFacts LeadPage.

(** *** The substring test *)

Lemma append_cons (c : ascii) (a b : string) :
  String.append (String c a) b = String c (String.append a b).
Proof. reflexivity. Qed.

Lemma append_nil (b : string) : String.append EmptyString b = b.
Proof. reflexivity. Qed.

Lemma prefix_split (n h : string) :
  String.prefix n h = true <-> exists b, h = String.append n b.
Proof.
  revert h. induction n as [|c n IH]; intros h; simpl String.prefix.
  - split; [intros _; now exists h | now destruct h].
  - destruct h as [|c' h]; simpl String.prefix.
    + split; [discriminate | intros [b Hb]; discriminate].
    + destruct (ascii_dec c c') as [->|Hne].
      * rewrite IH. split; intros [b Hb]; exists b;
          rewrite append_cons in *; congruence.
      * split; [discriminate|].
        intros [b Hb]. rewrite append_cons in Hb. congruence.
Qed.

Lemma contains_split (n h : string) :
  contains n h = true
  <-> exists a b, h = String.append a (String.append n b).
Proof.
  split.
  - induction h as [|c h IH].
    + change (contains n EmptyString) with (String.prefix n EmptyString).
      intros H. apply prefix_split in H as [b Hb].
      now exists EmptyString, b.
    + change (contains n (String c h))
        with (String.prefix n (String c h) || contains n h).
      intros H. apply orb_true_iff in H as [H|H].
      * apply prefix_split in H as [b Hb]. now exists EmptyString, b.
      * destruct (IH H) as (a & b & ->). now exists (String c a), b.
  - intros (a & b & ->). induction a as [|c a IH].
    + rewrite append_nil. apply contains_here, prefix_split. now exists b.
    + rewrite append_cons. apply contains_later, IH.
Qed.

Lemma score_of_cases (l : lead_input) :
  (personal l = true /\ score_of l = 30%Z)
  \/ (personal l = false /\ established l /\ score_of l = 85%Z)
  \/ (personal l = false /\ ~ established l /\ score_of l = 50%Z).
Proof.
  unfold score_of. destruct (personal l) eqn:Hp.
  - left. now rewrite (analyze_personal l Hp).
  - destruct (truthy (demo_company l) && (5 <? len (demo_company l))%Z)
      eqn:He.
    + right; left. apply established_test in He.
      now rewrite (analyze_established l Hp He).
    + right; right. assert (Hn : ~ established l).
      { intros H. apply established_test in H. congruence. }
      now rewrite (analyze_moderate l Hp Hn).
Qed.

(** X1: the score is 30 exactly when the email address can be cut into
    a part before, the text "@gmail.com" or "@yahoo.com", and a part
    after; where the text sits in the address does not matter. *)
Theorem score_30_iff_split (l : lead_input) :
  score_of l = 30%Z
  <-> exists a b : string,
        demo_email l = String.append a (String.append "@gmail.com" b)
        \/ demo_email l = String.append a (String.append "@yahoo.com" b).
Proof.
  split.
  - intros Hs. destruct (score_of_cases l) as [[Hp _]|[(_ & _ & H)|(_ & _ & H)]];
      try (rewrite Hs in H; discriminate).
    unfold personal in Hp. apply orb_true_iff in Hp as [H|H];
      apply contains_split in H as (a & b & H); exists a, b; auto.
  - intros (a & b & H).
    assert (Hp : personal l = true).
    { unfold personal. apply orb_true_iff.
      destruct H as [H|H]; [left|right]; apply contains_split; eauto. }
    unfold score_of. now rewrite (analyze_personal l Hp).
Qed.

(** C9: the free-mail test is a substring test on the whole email, not
    a test of its domain.  The score is 30 exactly when "@gmail.com" or
    "@yahoo.com" occurs in the address, and a text occurs in an address
    exactly when the address is a part before, the text, and a part
    after.  So the address a@gmail.com.example.org, whose domain is
    gmail.com.example.org and neither gmail.com nor yahoo.com, is
    scored 30 although its company is long and not empty. *)
Theorem free_mail_test_is_substring :
  (forall l : lead_input,
     score_of l = 30%Z
     <-> contains "@gmail.com" (demo_email l) = true
         \/ contains "@yahoo.com" (demo_email l) = true)
  /\ (forall needle hay : string,
        contains needle hay = true
        <-> exists a b, hay = String.append a (String.append needle b))
  /\ (exists l : lead_input,
        domain_of (demo_email l) = Some "gmail.com.example.org"
        /\ domain_of (demo_email l) <> Some "gmail.com"
        /\ domain_of (demo_email l) <> Some "yahoo.com"
        /\ contains "@gmail.com" (demo_email l) = true
        /\ established l
        /\ score_of l = 30%Z).
Proof.
  split; [|split; [exact contains_split | exact substring_not_domain]].
  intros l. rewrite <- orb_true_iff. fold (personal l).
  destruct (score_of_cases l) as [[Hp H]|[(Hp & _ & H)|(Hp & _ & H)]];
    rewrite H, Hp; split; try discriminate; reflexivity.
Qed.

(** X2: the score is 85 exactly when the first test fails and the
    company has at least six characters; the separate test that the
    company is not empty never decides anything. *)
Theorem score_85_iff_long_company (l : lead_input) :
  score_of l = 85%Z
  <-> personal l = false /\ (6 <= len (demo_company l))%Z.
Proof.
  assert (He : established l <-> (6 <= len (demo_company l))%Z).
  { unfold established, len. split; [intros [_ H]; lia|].
    intros H. split; [|lia]. intros E. rewrite E in H. simpl in H. lia. }
  rewrite <- He.
  destruct (score_of_cases l) as [[Hp H]|[(Hp & Hc & H)|(Hp & Hc & H)]];
    rewrite H, Hp; split; try discriminate; try tauto.
  intros [E _]. discriminate.
Qed.

(** X3: the live score is always 30, 50 or 85, shown as Low, Low and
    High; the page never shows "Medium Priority". *)
Theorem live_priority_never_medium (l : lead_input) :
  exists (s : Z) (p : priority) (text : string),
    scoreLead l = Some (s, p, text)
    /\ ((s = 30%Z /\ p = Low) \/ (s = 50%Z /\ p = Low)
        \/ (s = 85%Z /\ p = High))
    /\ p <> Medium.
Proof.
  rewrite scoreLead_analyze. fold (score_of l).
  exists (score_of l), (priority_of (score_of l)), (snd (analyze l)).
  split; [reflexivity|].
  destruct (score_of_cases l) as [[_ H]|[(_ & _ & H)|(_ & _ & H)]];
    rewrite H; split; auto; discriminate.
Qed.

(** *** Reruns of the live scoring page *)

Lemma click_forgets (l : lead_input) (st : session_state) :
  results_panel (analyze_click l st) = scoreLead l.
Proof. unfold scoreLead, analyze_click. now destruct (analyze l). Qed.

Lemma run_all_snoc (runs : list (bool * lead_input))
    (r : bool * lead_input) (st : session_state) :
  run_all (runs ++ [r]) st
  = fst (live_scoring (fst r) (snd r) (run_all runs st)).
Proof. unfold run_all. now rewrite fold_left_app. Qed.

Lemma last_click_snoc (runs : list (bool * lead_input))
    (r : bool * lead_input) :
  last_click (runs ++ [r])
  = if fst r then Some (snd r) else last_click runs.
Proof. unfold last_click. now rewrite fold_left_app. Qed.

Lemma panel_after_runs (runs : list (bool * lead_input)) :
  results_panel (run_all runs fresh_session)
  = match last_click runs with
    | Some l => scoreLead l
    | None => None
    end.
Proof.
  induction runs as [|[clicked l] runs IH] using rev_ind; [reflexivity|].
  rewrite run_all_snoc, last_click_snoc. simpl.
  destruct clicked; [apply click_forgets | exact IH].
Qed.

(** X4: whatever runs came before, the results column shows the score
    of the inputs as they were at the most recent click of "Analyze
    Lead" -- not of the inputs as they are now -- and nothing as long as
    the button was never clicked. *)
Theorem panel_shows_last_click (runs : list (bool * lead_input))
    (clicked : bool) (l : lead_input) :
  snd (live_scoring clicked l (run_all runs fresh_session))
  = match last_click (runs ++ [(clicked, l)]) with
    | Some l' => scoreLead l'
    | None => None
    end.
Proof.
  rewrite <- panel_after_runs, run_all_snoc. reflexivity.
Qed.

(** X5: in every panel the page can show, the two slices of the score
    gauge are not negative and add up to 100. *)
Theorem gauge_slices (runs : list (bool * lead_input)) (clicked : bool)
    (l : lead_input) (s : Z) (p : priority) (text : string) :
  snd (live_scoring clicked l (run_all runs fresh_session))
  = Some (s, p, text) ->
  Forall (fun v => (0 <= v)%Z) (gauge_values s)
  /\ fold_right Z.add 0%Z (gauge_values s) = 100%Z.
Proof.
  intros H. split; [|simpl; lia].
  assert (Hr : (0 <= s <= 100)%Z).
  { replace (snd (live_scoring clicked l (run_all runs fresh_session)))
      with (results_panel (run_all (runs ++ [(clicked, l)]) fresh_session))
      in H by (now rewrite run_all_snoc).
    rewrite panel_after_runs in H.
    destruct (last_click _) as [l'|]; [|discriminate].
    rewrite scoreLead_analyze in H. injection H as <- _ _.
    apply (score_of_range l'). }
  unfold gauge_values. repeat constructor; lia.
Qed.

Lemma gauge_slices_witness :
  snd (live_scoring true mike (run_all [(true, jane)] fresh_session))
  = Some (85%Z, High,
          "Professional company email and established business")
  /\ Forall (fun v => (0 <= v)%Z) (gauge_values 85).
Proof.
  split; [reflexivity|].
  exact (proj1 (gauge_slices [(true, jane)] true mike 85%Z High _ eq_refl)).
Defined.

(** *** The Before/After tables *)

(** X6: for every list of leads both tables of the Before/After page
    are built without a [ValueError]; each has one row per lead, and the
    "AI Score" column holds the stored [ai_score] values in order. *)
Theorem before_after_tables (analyzed : string) (leads : list demo_lead) :
  exists manual automated,
    manual_df leads = Some manual
    /\ automated_df analyzed leads = Some automated
    /\ Forall (fun col => length (snd col) = length leads) manual
    /\ Forall (fun col => length (snd col) = length leads) automated
    /\ rows manual = length leads /\ rows automated = length leads
    /\ automated !! 2%nat
       = Some ("AI Score", map (fun lead => VInt (ai_score lead)) leads).
Proof.
  unfold manual_df, automated_df, DataFrame, times. simpl forallb.
  rewrite !length_map, !repeat_length, !Nat.eqb_refl. simpl.
  do 2 eexists. split; [reflexivity|]. split; [reflexivity|].
  repeat split; repeat constructor; simpl;
    rewrite ?length_map, ?repeat_length; reflexivity.
Qed.

End LeadPageFacts.

(** ** The ROI calculator *)

Module RoiFacts.
Import Roi.
Local Open Scope Q_scope.

Lemma monthly_savings_closed (i : inputs) :
  monthly_savings (calculate i)
  == inject_Z (leads_per_month i * hourly_rate i
               * (2 * time_per_lead i - 1)) / 120.
Proof.
  unfold calculate, automated_time. simpl.
  unfold Z.sub. rewrite !inject_Z_mult, inject_Z_plus, !inject_Z_mult.
  change (inject_Z (- (1))) with (- (1))%Q. change (inject_Z 2) with 2%Q.
  field.
Qed.



(** X7: the figures of the calculator are tied together: the annual
    saving is twelve times the monthly saving, the monthly saving is the
    hours saved times the hourly rate, the manual cost is the automated
    cost times twice the minutes per lead, and the monthly saving is
    [leads * rate * (2 * minutes - 1) / 120]. *)
Theorem roi_relations (i : inputs) :
  let f := calculate i in
  annual_savings f == 12 * monthly_savings f
  /\ monthly_savings f == time_saved_hours f * inject_Z (hourly_rate i)
  /\ annual_cost f == annual_cost_auto f * inject_Z (2 * time_per_lead i)
  /\ monthly_savings f
     == inject_Z (leads_per_month i * hourly_rate i
                  * (2 * time_per_lead i - 1)) / 120.
Proof.
  simpl. repeat split.
  - unfold calculate. simpl. ring.
  - unfold calculate. simpl. ring.
  - unfold calculate, automated_time. simpl.
    rewrite !inject_Z_mult. change (inject_Z 2) with 2%Q. field.
  - apply monthly_savings_closed.
Qed.



(** The figures for the default inputs: 100 hours and 5000 dollars a
    month by hand, and a saving of 57500 dollars a year. *)
Lemma roi_defaults :
  let f := calculate defaults in
  monthly_hours f == 100 /\ monthly_cost f == 5000
  /\ annual_savings f == 57500.
Proof. repeat split. Qed.

End RoiFacts.

(** ** Dashboard tabs and sidebar *)

Module ViewsFacts.
Import Dashboard DashboardFacts Views.

(** *** High-risk customers *)

Lemma high_risk_length (hs : list health) :
  high_risk hs = Z.of_nat (length (high_risk_customers hs)).
Proof. reflexivity. Qed.

(** X9: the warning of the "Customer Health" tab appears exactly when
    the "High Risk Customers" metric is not zero; its table then has as
    many rows as the metric says, and every row is a customer of the
    data set whose risk level is High. *)
Theorem high_risk_alert_matches_metric (hs : list health) :
  (high_risk_alert hs = None <-> high_risk hs = 0%Z)
  /\ (forall table, high_risk_alert hs = Some table ->
        Z.of_nat (length table) = high_risk hs
        /\ (1 <= high_risk hs)%Z
        /\ forall row, row ∈ table ->
             exists h, h ∈ hs /\ Risk_Level h = "High"
                       /\ row = (Customer h, MRR h, Health_Score h)).
Proof.
  rewrite high_risk_length. unfold high_risk_alert.
  destruct (high_risk_customers hs) as [|h rest] eqn:E.
  - split; [split; [reflexivity | reflexivity] | discriminate].
  - split; [split; [discriminate | simpl; lia]|].
    intros table [= <-]. split; [simpl; now rewrite length_map|].
    split; [simpl; lia|].
    intros row Hrow.
    change (row ∈ map (fun h => (Customer h, MRR h, Health_Score h))
                    (h :: rest)) in Hrow.
    apply list_elem_of_fmap in Hrow as (h' & -> & Hin).
    exists h'. rewrite <- E in Hin. unfold high_risk_customers in Hin.
    apply list_elem_of_filter in Hin as [Hlevel Hin]. auto.
Qed.

Lemma high_risk_alert_matches_metric_witness :
  high_risk_alert health_df = Some [("DataViz Inc", 1800, 45)%Z]
  /\ high_risk health_df = 1%Z.
Proof.
  split; [reflexivity|].
  symmetry.
  exact (proj1 (proj2 (high_risk_alert_matches_metric health_df)
                  [("DataViz Inc", 1800, 45)%Z] eq_refl)).
Defined.

(** *** Counts per risk level *)

Lemma risk_counts_snoc (hs : list health) (h : health) :
  risk_counts (hs ++ [h]) = add_count (risk_counts hs) h.
Proof. unfold risk_counts. now rewrite fold_left_app. Qed.

Lemma countByRisk_snoc (hs : list health) (h : health) (level : string) :
  countByRisk (hs ++ [h]) level
  = (countByRisk hs level
     + (if decide (Risk_Level h = level) then 1 else 0))%Z.
Proof.
  unfold countByRisk. rewrite filter_app, length_app, Nat2Z.inj_add.
  f_equal. rewrite filter_cons, filter_nil.
  destruct (decide (Risk_Level h = level)); reflexivity.
Qed.

Lemma countByRisk_absent (hs : list health) (level : string) :
  level ∉ map Risk_Level hs -> countByRisk hs level = 0%Z.
Proof.
  intros Hout. unfold countByRisk.
  induction hs as [|h hs IH]; [reflexivity|].
  simpl in Hout. apply not_elem_of_cons in Hout as [Hne Hout].
  rewrite filter_cons. destruct (decide (Risk_Level h = level));
    [congruence | now apply IH].
Qed.

Lemma level_snoc_elem (s : string) (hs : list health) (h : health) :
  s ∈ map Risk_Level (hs ++ [h])%list
  <-> s ∈ map Risk_Level hs \/ s = Risk_Level h.
Proof.
  rewrite map_app, elem_of_app. simpl.
  now rewrite list_elem_of_singleton.
Qed.

Lemma risk_counts_lookup (hs : list health) (level : string) :
  risk_counts hs !! level
  = if decide (level ∈ map Risk_Level hs)
    then Some (countByRisk hs level) else None.
Proof.
  induction hs as [|h hs IH] using rev_ind.
  - unfold risk_counts. simpl fold_left. rewrite lookup_empty.
    case_decide as Hin; [|reflexivity].
    now apply not_elem_of_nil in Hin.
  - rewrite risk_counts_snoc, countByRisk_snoc. unfold add_count.
    pose proof (level_snoc_elem level hs h) as Hsnoc.
    destruct (decide (Risk_Level h = level)) as [Hs|Hne].
    + subst level. rewrite lookup_insert_eq, IH.
      destruct (decide (Risk_Level h ∈ map Risk_Level (hs ++ [h])%list))
        as [_|Hout]; [|exfalso; apply Hout, Hsnoc; now right].
      destruct (decide (Risk_Level h ∈ map Risk_Level hs)) as [Hin|Hin];
        simpl; [reflexivity|].
      now rewrite (countByRisk_absent _ _ Hin).
    + rewrite lookup_insert_ne by exact Hne. rewrite IH, Z.add_0_r.
      destruct (decide (level ∈ map Risk_Level hs)) as [Hin|Hin];
        destruct (decide (level ∈ map Risk_Level (hs ++ [h])%list))
          as [Hin'|Hin']; try reflexivity.
      * exfalso. apply Hin', Hsnoc. now left.
      * exfalso. apply Hsnoc in Hin' as [?|?]; [contradiction|congruence].
Qed.

Lemma risk_counts_total (hs : list health) :
  sum_of_groups (risk_counts hs) = Z.of_nat (length hs).
Proof.
  induction hs as [|h hs IH] using rev_ind; [reflexivity|].
  rewrite risk_counts_snoc. unfold add_count.
  rewrite sum_of_groups_insert, IH, length_app. simpl. lia.
Qed.

(** X10: the risk distribution has an entry exactly for the levels that
    occur in the table; the entry of a level is the number of customers
    at that level (for "High", the metric of the header), so it is at
    least 1; and the entries add up to the number of customers. *)
Theorem risk_counts_spec (hs : list health) :
  (forall level : string,
     risk_counts hs !! level
     = if decide (level ∈ map Risk_Level hs)
       then Some (countByRisk hs level) else None)
  /\ (forall (level : string) (n : Z),
        risk_counts hs !! level = Some n -> (1 <= n)%Z)
  /\ risk_counts hs !! "High"
     = (if decide (high_risk hs = 0%Z) then None else Some (high_risk hs))
  /\ sum_of_groups (risk_counts hs) = Z.of_nat (length hs).
Proof.
  assert (Hpos : forall level, level ∈ map Risk_Level hs ->
                   (1 <= countByRisk hs level)%Z).
  { intros level Hin. apply list_elem_of_fmap in Hin as (h & -> & Hin).
    unfold countByRisk.
    assert (Hf : h ∈ filter (fun h' => Risk_Level h' = Risk_Level h) hs)
      by now apply list_elem_of_filter.
    destruct (filter _ hs); [now apply not_elem_of_nil in Hf | simpl; lia]. }
  split; [apply risk_counts_lookup|]. split; [|split].
  - intros level n. rewrite risk_counts_lookup.
    case_decide as Hin; [|discriminate]. intros [= <-]. now apply Hpos.
  - rewrite risk_counts_lookup. unfold high_risk.
    destruct (decide ("High" ∈ map Risk_Level hs)) as [Hin|Hin].
    + apply Hpos in Hin. case_decide; [lia | reflexivity].
    + rewrite (countByRisk_absent _ _ Hin). now case_decide.
  - apply risk_counts_total.
Qed.

Lemma risk_counts_spec_witness :
  risk_counts health_df !! "Low" = Some 3%Z /\ (1 <= 3)%Z.
Proof.
  assert (H : risk_counts health_df !! "Low" = Some 3%Z)
    by (vm_compute; reflexivity).
  split; [exact H|].
  exact (proj1 (proj2 (risk_counts_spec health_df)) "Low" 3%Z H).
Defined.

(** *** Top opportunities *)

Lemma insert_desc_perm (d : deal) (l : list deal) :
  insert_desc d l ≡ₚ d :: l.
Proof.
  induction l as [|e rest IH]; simpl; [reflexivity|].
  destruct (Amount d <? Amount e)%Z; [|reflexivity].
  rewrite IH. apply Permutation_swap.
Qed.

Lemma sort_desc_perm (l : list deal) : sort_desc l ≡ₚ l.
Proof.
  induction l as [|d rest IH]; simpl; [reflexivity|].
  now rewrite insert_desc_perm, IH.
Qed.

Lemma insert_desc_sorted (d : deal) (l : list deal) :
  StronglySorted amount_ge l -> StronglySorted amount_ge (insert_desc d l).
Proof.
  induction l as [|e rest IH]; simpl; intros Hs.
  - repeat constructor.
  - apply StronglySorted_cons in Hs as [Hall Hs].
    destruct (Z.ltb_spec (Amount d) (Amount e)) as [Hlt|Hge].
    + apply StronglySorted_cons. split; [|now apply IH].
      rewrite insert_desc_perm. constructor; [unfold amount_ge; lia|].
      exact Hall.
    + apply StronglySorted_cons. split.
      * constructor; [exact Hge|].
        eapply Forall_impl; [exact Hall|].
        unfold amount_ge. intros x Hx. lia.
      * apply StronglySorted_cons. now split.
Qed.

Lemma sort_desc_sorted (l : list deal) :
  StronglySorted amount_ge (sort_desc l).
Proof.
  induction l as [|d rest IH]; simpl; [constructor|].
  now apply insert_desc_sorted.
Qed.

(** X11: "Top Opportunities" lists five deals, or all of them when
    there are fewer; they are in falling order of amount, they are rows
    of the pipeline, and no deal left out has a larger amount than a
    deal listed. *)
Theorem nlargest_spec (n : nat) (deals : list deal) :
  length (nlargest n deals) = Nat.min n (length deals)
  /\ StronglySorted amount_ge (nlargest n deals)
  /\ exists rest : list deal,
       nlargest n deals ++ rest ≡ₚ deals
       /\ forall d e, d ∈ nlargest n deals -> e ∈ rest ->
            (Amount e <= Amount d)%Z.
Proof.
  unfold nlargest. pose proof (sort_desc_sorted deals) as Hs.
  rewrite <- (firstn_skipn n (sort_desc deals)) in Hs.
  split; [|split].
  - now rewrite length_firstn, (Permutation_length (sort_desc_perm deals)).
  - now apply StronglySorted_app_1_l in Hs.
  - exists (skipn n (sort_desc deals)). split.
    + rewrite firstn_skipn. apply sort_desc_perm.
    + intros d e Hd He.
      exact (StronglySorted_app_1_elem_of _ _ _ _ _ Hs Hd He).
Qed.

Lemma nlargest_spec_witness :
  length (nlargest 5 pipeline_df) = 5%nat.
Proof. exact (proj1 (nlargest_spec 5 pipeline_df)). Defined.

(** The five rows for the mock pipeline. *)
Lemma top_deals_mock :
  top_deals pipeline_df
  = [ ("InnovateCo", 60000, "Closed Won"); ("TechFlow", 45000, "Proposal");
      ("CloudSys", 35000, "Demo"); ("Acme Corp", 25000, "Demo");
      ("ScaleTech", 20000, "Qualified") ]%Z.
Proof. reflexivity. Qed.

Lemma insert_desc_filter_eq (a : Z) (d : deal) (l : list deal) :
  Amount d = a ->
  filter (fun x => Amount x = a) (insert_desc d l)
  = d :: filter (fun x => Amount x = a) l.
Proof.
  intros Hd. induction l as [|e rest IH]; simpl.
  - now rewrite filter_cons_True.
  - destruct (Z.ltb_spec (Amount d) (Amount e)) as [Hlt|Hge].
    + rewrite !(filter_cons_False _ e) by lia. exact IH.
    + now rewrite (filter_cons_True _ d).
Qed.

Lemma insert_desc_filter_ne (a : Z) (d : deal) (l : list deal) :
  Amount d <> a ->
  filter (fun x => Amount x = a) (insert_desc d l)
  = filter (fun x => Amount x = a) l.
Proof.
  intros Hd. induction l as [|e rest IH]; simpl.
  - now rewrite filter_cons_False.
  - destruct (Z.ltb_spec (Amount d) (Amount e)) as [Hlt|Hge].
    + rewrite !(filter_cons _ e), IH. reflexivity.
    + now rewrite (filter_cons_False _ d).
Qed.

Lemma sort_desc_stable (a : Z) (l : list deal) :
  filter (fun x => Amount x = a) (sort_desc l)
  = filter (fun x => Amount x = a) l.
Proof.
  induction l as [|d rest IH]; simpl; [reflexivity|].
  destruct (decide (Amount d = a)) as [Hd|Hd].
  - rewrite insert_desc_filter_eq, filter_cons_True, IH by exact Hd.
    reflexivity.
  - rewrite insert_desc_filter_ne, filter_cons_False, IH by exact Hd.
    reflexivity.
Qed.

(** X12: among deals of the same amount the list of top deals takes the
    ones that come first in the pipeline, in their original order. *)
Theorem nlargest_keeps_first (n : nat) (deals : list deal) (a : Z) :
  filter (fun x => Amount x = a) (nlargest n deals)
  `prefix_of` filter (fun x => Amount x = a) deals.
Proof.
  unfold nlargest. rewrite <- (sort_desc_stable a deals).
  rewrite <- (firstn_skipn n (sort_desc deals)) at 2.
  rewrite filter_app. now eexists.
Qed.

(** *** Sales rep filter *)

Lemma unique_from_elem (seen : gset string) (xs : list string) (x : string) :
  x ∈ unique_from seen xs <-> x ∈ xs /\ x ∉ seen.
Proof.
  revert seen. induction xs as [|y rest IH]; intros seen; simpl.
  - rewrite elem_of_nil. tauto.
  - destruct (decide (y ∈ seen)) as [Hy|Hy].
    + rewrite IH, elem_of_cons. split; [tauto|].
      intros [[->|Hx] Hout]; [contradiction | tauto].
    + rewrite !elem_of_cons, IH, elem_of_union, elem_of_singleton.
      destruct (decide (x = y)) as [->|Hne]; tauto.
Qed.

Lemma unique_from_NoDup (seen : gset string) (xs : list string) :
  NoDup (unique_from seen xs).
Proof.
  revert seen. induction xs as [|y rest IH]; intros seen; simpl.
  - constructor.
  - destruct (decide (y ∈ seen)); [apply IH|].
    apply NoDup_cons. split; [|apply IH].
    rewrite unique_from_elem, elem_of_union, elem_of_singleton. tauto.
Qed.

Lemma unique_from_sublist (seen : gset string) (xs : list string) :
  unique_from seen xs `sublist_of` xs.
Proof.
  revert seen. induction xs as [|y rest IH]; intros seen; simpl.
  - constructor.
  - destruct (decide (y ∈ seen)).
    + apply sublist_cons, IH.
    + apply sublist_skip, IH.
Qed.

Lemma unique_from_fixed (seen : gset string) (xs : list string) :
  NoDup xs -> (forall x, x ∈ xs -> x ∉ seen) -> unique_from seen xs = xs.
Proof.
  revert seen. induction xs as [|y rest IH]; intros seen Hnd Hout; simpl;
    [reflexivity|].
  apply NoDup_cons in Hnd as [Hy Hnd].
  rewrite decide_False by (apply Hout; left).
  f_equal. apply IH; [exact Hnd|].
  intros x Hx. rewrite elem_of_union, elem_of_singleton.
  intros [->|Hs]; [contradiction|].
  apply (Hout x); [now right | exact Hs].
Qed.

(** X13: the options of the sales rep filter name every rep of the
    pipeline exactly once, in the order in which the reps first appear;
    taking the distinct values again changes nothing. *)
Theorem rep_options_spec (deals : list deal) :
  NoDup (rep_options deals)
  /\ (forall rep : string, rep ∈ rep_options deals <-> rep ∈ map Rep deals)
  /\ rep_options deals `sublist_of` map Rep deals
  /\ head (rep_options deals) = head (map Rep deals)
  /\ unique (rep_options deals) = rep_options deals.
Proof.
  unfold rep_options, unique. split; [apply unique_from_NoDup|].
  split; [|split; [apply unique_from_sublist|split]].
  - intros rep. rewrite unique_from_elem, elem_of_empty. tauto.
  - destruct (map Rep deals) as [|x rest]; [reflexivity|]. simpl.
    now rewrite decide_False by apply not_elem_of_empty.
  - apply unique_from_fixed; [apply unique_from_NoDup|].
    intros x _. apply not_elem_of_empty.
Qed.

Lemma rep_options_mock : rep_options pipeline_df = ["John"; "Sarah"; "Mike"].
Proof. vm_compute. reflexivity. Qed.

End ViewsFacts.

(** ** Aggregates of the dashboard, continued *)

Module AggregateFacts.
Import Cell Int64 Int64Facts Dashboard DashboardFacts GrowthFacts.

(** *** Row order *)

Lemma stage_amount_perm (s : string) (deals deals' : list deal) :
  deals ≡ₚ deals' -> stage_amount s deals = stage_amount s deals'.
Proof.
  induction 1 as [|d l l' _ IH|d e l|l l' l'' _ IH _ IH']; simpl;
    [reflexivity | now rewrite IH | lia | congruence].
Qed.

Lemma sum_amounts_perm (deals deals' : list deal) :
  deals ≡ₚ deals' -> sum_amounts deals = sum_amounts deals'.
Proof.
  induction 1 as [|d l l' _ IH|d e l|l l' l'' _ IH _ IH']; simpl;
    [reflexivity | now rewrite IH | lia | congruence].
Qed.

(** X14: the integer aggregates of the pipeline do not depend on the
    order of its rows: reordering the deals leaves the sums per stage
    and the pipeline value unchanged, also when they wrap around. *)
Theorem aggregates_ignore_row_order (deals deals' : list deal) :
  deals ≡ₚ deals' ->
  groupSumByStage deals = groupSumByStage deals'
  /\ totalAmount deals = totalAmount deals'.
Proof.
  intros Hp. split.
  - apply map_eq. intros s. rewrite !group_lookup.
    rewrite (stage_amount_perm s _ _ Hp).
    destruct (decide (s ∈ map Stage deals)) as [Hin|Hin];
      destruct (decide (s ∈ map Stage deals')) as [Hin'|Hin'];
      try reflexivity; exfalso.
    + apply Hin'. now rewrite <- Hp.
    + apply Hin. now rewrite Hp.
  - rewrite !totalAmount_wrap. f_equal. now apply sum_amounts_perm.
Qed.

Lemma aggregates_ignore_row_order_witness :
  pipeline_df ≡ₚ rev pipeline_df
  /\ groupSumByStage pipeline_df = groupSumByStage (rev pipeline_df).
Proof.
  assert (H : pipeline_df ≡ₚ rev pipeline_df) by apply Permutation_rev.
  split; [exact H|].
  exact (proj1 (aggregates_ignore_row_order _ _ H)).
Defined.

(** *** Bounds *)

(** X15: when no amount is negative and the amounts add up to less than
    2^63, the sum of every stage lies between zero and the pipeline
    value, so no bar of the funnel exceeds the "Pipeline Value"
    metric. *)
Theorem stage_sum_within_pipeline (deals : list deal) (s : string) (v : Z) :
  (forall d, d ∈ deals -> (0 <= Amount d)%Z) ->
  (sum_amounts deals < 2 ^ 63)%Z ->
  groupSumByStage deals !! s = Some v ->
  (0 <= v <= totalAmount deals)%Z.
Proof.
  intros Hpos Hsum Hv. rewrite group_lookup in Hv.
  case_decide; [|discriminate]. injection Hv as <-.
  pose proof (stage_amount_bounds s deals Hpos) as Hb.
  rewrite totalAmount_sum, wrap64_fits by (unfold fits; lia).
  exact Hb.
Qed.

Lemma stage_sum_within_pipeline_witness :
  (0 <= 60000 <= totalAmount pipeline_df)%Z.
Proof.
  apply (stage_sum_within_pipeline pipeline_df "Demo").
  - exact mock_amounts_nonneg.
  - vm_compute. reflexivity.
  - vm_compute. reflexivity.
Defined.

Lemma sum_amounts_bounds (lo hi : Z) (deals : list deal) :
  (forall d, d ∈ deals -> (lo <= Amount d <= hi)%Z) ->
  (lo * Z.of_nat (length deals) <= sum_amounts deals
   <= hi * Z.of_nat (length deals))%Z.
Proof.
  induction deals as [|d rest IH]; intros Hb; [simpl; lia|].
  assert (Hd : (lo <= Amount d <= hi)%Z) by (apply Hb; left).
  assert (Hr : (lo * Z.of_nat (length rest) <= sum_amounts rest
                <= hi * Z.of_nat (length rest))%Z)
    by (apply IH; intros e He; apply Hb; now right).
  cbn [sum_amounts length]. lia.
Qed.

(** X16: for a pipeline with at least one deal the average deal size,
    computed exactly, is a finite number; times the number of deals it
    gives the sum of the amounts, which is the pipeline value whenever
    that sum lies in the int64 range; and it lies between any two
    bounds that hold for all amounts. *)
Theorem average_is_mean (deals : list deal) :
  deals <> [] ->
  exists q : Q,
    averageAmount deals = Returns (Fin q)
    /\ q * inject_Z (Z.of_nat (length deals))
       == inject_Z (sum_amounts deals)
    /\ (fits (sum_amounts deals) ->
        q * inject_Z (Z.of_nat (length deals))
        == inject_Z (totalAmount deals))
    /\ forall lo hi : Z,
         (forall d, d ∈ deals -> (lo <= Amount d <= hi)%Z) ->
         (inject_Z lo <= q <= inject_Z hi)%Q.
Proof.
  intros Hne. destruct deals as [|d rest]; [contradiction|].
  set (deals := d :: rest) in *.
  assert (Hn : (0 < Z.of_nat (length deals))%Z) by (simpl; lia).
  assert (Hq : (0 < inject_Z (Z.of_nat (length deals)))%Q)
    by (change 0%Q with (inject_Z 0); now rewrite <- Zlt_Qlt).
  assert (Hmul : (inject_Z (sum_amounts deals)
                  / inject_Z (Z.of_nat (length deals))
                  * inject_Z (Z.of_nat (length deals))
                  == inject_Z (sum_amounts deals))%Q).
  { field. intros H0. rewrite H0 in Hq. discriminate. }
  exists (inject_Z (sum_amounts deals) / inject_Z (Z.of_nat (length deals)))%Q.
  split; [|split; [|split]].
  - unfold averageAmount, series_mean.
    rewrite <- exact_sum_amounts. simpl. now rewrite length_map.
  - exact Hmul.
  - intros Hfit. now rewrite (totalAmount_sum deals Hfit).
  - intros lo hi Hb. pose proof (sum_amounts_bounds lo hi deals Hb) as Hs.
    split.
    + apply Qle_shift_div_l; [exact Hq|].
      rewrite <- inject_Z_mult, <- Zle_Qle. lia.
    + apply Qle_shift_div_r; [exact Hq|].
      rewrite <- inject_Z_mult, <- Zle_Qle. lia.
Qed.

Lemma average_is_mean_witness :
  pipeline_df <> []
  /\ exists q : Q, averageAmount pipeline_df = Returns (Fin q).
Proof.
  assert (H : pipeline_df <> []) by discriminate.
  split; [exact H|].
  destruct (average_is_mean pipeline_df H) as (q & Hq & _).
  now exists q.
Defined.

(** *** Direction of growth *)

Lemma growth_value_sign (c p : Z) :
  (0 < p)%Z ->
  let v := ((inject_Z c / inject_Z p - 1) * 100)%Q in
  ((0 < v)%Q <-> (p < c)%Z) /\ (v == 0 <-> c = p)
  /\ ((0 <= c)%Z -> (- (100) <= v)%Q).
Proof.
  intros Hp v. subst v. destruct p as [|pp|pp]; try lia.
  unfold Qlt, Qle, Qeq, Qdiv, Qminus, Qmult, Qplus, Qopp, Qinv, inject_Z.
  simpl. repeat split; intros; try nia.
Qed.

(** X17: after a month with positive [Net_MRR] the growth rate is a
    finite number whose sign tells the direction: it is positive exactly
    when [Net_MRR] went up and zero exactly when it stayed the same; and
    it is not below -100 unless the new [Net_MRR] is negative. *)
Theorem growth_sign (revenue : list revenue_month) (i : nat)
    (prev cur : revenue_month) :
  revenue !! i = Some prev -> revenue !! S i = Some cur ->
  (0 < Net_MRR prev)%Z ->
  exists v : Q,
    growthRate revenue !! S i = Some (Fin v)
    /\ ((0 < v)%Q <-> (Net_MRR prev < Net_MRR cur)%Z)
    /\ (v == 0 <-> Net_MRR cur = Net_MRR prev)
    /\ ((0 <= Net_MRR cur)%Z -> (- (100) <= v)%Q).
Proof.
  intros Hp Hc Hpos.
  exists ((inject_Z (Net_MRR cur) / inject_Z (Net_MRR prev) - 1) * 100)%Q.
  split; [|now apply growth_value_sign].
  unfold growthRate.
  rewrite (growth_of_next _ i (inject_Z (Net_MRR prev))
             (inject_Z (Net_MRR cur))).
  - rewrite growth_cell; [reflexivity|].
    intros H0. unfold Qeq in H0. simpl in H0. lia.
  - rewrite list_lookup_fmap, Hp. reflexivity.
  - rewrite list_lookup_fmap, Hc. reflexivity.
Qed.

Lemma growth_sign_witness :
  exists v : Q,
    growthRate revenue_df !! 3%nat = Some (Fin v) /\ ~ (0 < v)%Q.
Proof.
  destruct (growth_sign revenue_df 2
              (Build_revenue_month "2023-12" 18000 3000 15000)
              (Build_revenue_month "2024-01" 15000 2000 13000)
              eq_refl eq_refl ltac:(simpl; lia)) as (v & Hv & Hs & _).
  exists v. split; [exact Hv|]. intros H. apply Hs in H. simpl in H. lia.
Defined.

End AggregateFacts.
